(** * txtai [embeddings/search.py]: the batch search action

    A shallow embedding of the [Search] class of
    [src/python/txtai/embeddings/search.py] and the properties of its
    query fan-out, score fusion, limit and candidate derivation.

    Layout:
    - [Py]: the few pieces of the Python runtime the module relies on
      (exceptions, loops that can raise, list indexing, slices, and strings
      with [str.isdigit], [int] and [str.split] over the Unicode database);
    - identifiers, insertion-ordered dictionaries and the stable [sorted];
    - [ScoreOps]: the arithmetic the code performs on scores and weights,
      as an interface with an exact ([Q]) and a binary64 ([float]) instance;
    - [Section Search]: the methods of the class, in source order, and the
      notions the statements are written with;
    - [Examples]: a small deployment to run the code on;
    - [Section Properties]: the theorems, then the code at concrete inputs. *)

From Stdlib Require Import List ZArith QArith Bool Lia Ascii String.
From Stdlib Require Import Sorted Permutation.
From Stdlib Require Import Floats.PrimFloat Uint63.
Import ListNotations.
Close Scope Q_scope.

Set Implicit Arguments.

(* ------------------------------------------------------------------ *)
(** ** Python runtime *)

Module Py.

(** The exceptions that the modelled statements can raise. *)
Inductive pyerror : Type :=
| TypeError
| ValueError
| IndexError
| KeyError.

(** Outcome of a statement sequence: a value, or a raised exception. *)
Inductive result (A : Type) : Type :=
| Ok (a : A)
| Raise (e : pyerror).
Arguments Ok {A} a.
Arguments Raise {A} e.

Definition rbind {A B} (c : result A) (k : A -> result B) : result B :=
  match c with
  | Ok a => k a
  | Raise e => Raise e
  end.

(** [[f(x) for x in xs]] for an [f] that can raise. *)
Fixpoint rmap {A B} (f : A -> result B) (xs : list A) : result (list B) :=
  match xs with
  | [] => Ok []
  | x :: xs' => rbind (f x) (fun y => rbind (rmap f xs') (fun ys => Ok (y :: ys)))
  end.

(** A [for] loop that updates one variable and can raise. *)
Fixpoint rfold {A S} (f : S -> A -> result S) (xs : list A) (s : S) : result S :=
  match xs with
  | [] => Ok s
  | x :: xs' => rbind (f s x) (rfold f xs')
  end.

(** Computations that also count the calls made so far to the sparse
    collaborator's [isnormalized()]: the counter is the only state the
    module's code can observe changing during one batch call. *)
Definition M (A : Type) : Type := nat -> result (A * nat).

Definition ret {A} (a : A) : M A := fun n => Ok (a, n).

Definition bind {A B} (c : M A) (k : A -> M B) : M B :=
  fun n => match c n with
           | Ok (a, n') => k a n'
           | Raise e => Raise e
           end.

Definition lift {A} (c : result A) : M A :=
  fun n => match c with
           | Ok a => Ok (a, n)
           | Raise e => Raise e
           end.

(** One call of a flag method whose [k]-th answer is [answers k]. *)
Definition consult (answers : nat -> bool) : M bool :=
  fun n => Ok (answers n, S n).

Fixpoint mapM {A B} (f : A -> M B) (xs : list A) : M (list B) :=
  match xs with
  | [] => ret []
  | x :: xs' => bind (f x) (fun y => bind (mapM f xs') (fun ys => ret (y :: ys)))
  end.

Fixpoint foldM {A S} (f : S -> A -> M S) (xs : list A) (s : S) : M S :=
  match xs with
  | [] => ret s
  | x :: xs' => bind (f s x) (foldM f xs')
  end.

(** [enumerate(xs)] *)
Definition enumerate {A} (xs : list A) : list (nat * A) :=
  combine (seq 0 (List.length xs)) xs.

(** [xs[i]] on a list: negative indices count from the end, anything out of
    range raises [IndexError]. *)
Definition getitem {A} (xs : list A) (i : Z) : result A :=
  let n := Z.of_nat (List.length xs) in
  let j := if (i <? 0)%Z then (i + n)%Z else i in
  if (j <? 0)%Z then Raise IndexError
  else match nth_error xs (Z.to_nat j) with
       | Some a => Ok a
       | None => Raise IndexError
       end.

(** [xs[:k]]: the first [k] elements, or all but the last [-k] when [k] is
    negative. *)
Definition slice_to {A} (k : Z) (xs : list A) : list A :=
  if (k <? 0)%Z then firstn (List.length xs - Z.to_nat (- k)) xs
  else firstn (Z.to_nat k) xs.

(** *** Strings *)

(** A [str]: the sequence of its code points. *)
Definition str : Type := list N.

Definition str_eq_dec (s t : str) : {s = t} + {s <> t} := list_eq_dec N.eq_dec s t.

Definition str_eqb (s t : str) : bool := if str_eq_dec s t then true else false.

(** Truth value of a [str]: false for the empty one. *)
Definition nonempty (s : str) : bool :=
  match s with
  | [] => false
  | _ :: _ => true
  end.

(** A [str] written in ASCII. *)
Definition lit (s : string) : str := map N_of_ascii (list_ascii_of_string s).

(** What [str.isdigit], [int] and [str.split] take from the interpreter
    that runs the module: three tables of its Unicode database, read
    character by character, and the bound it puts on the digits of a
    number written in base 10 ([sys.get_int_max_str_digits()], 4300 unless
    set otherwise, 0 for no bound and on interpreters that have none).
    They are a parameter: nothing below depends on what they hold. *)
Class Interpreter : Type := {
  numeric_digit : N -> bool;      (* Numeric_Type is Digit or Decimal *)
  decimal_value : N -> option Z;  (* the value of a decimal digit (category Nd) *)
  whitespace : N -> bool;         (* the characters str.isspace() accepts *)
  int_max_str_digits : nat
}.

Section Strings.
Context {interpreter : Interpreter}.

(** [s.isdigit()]: at least one character, and every character a digit, in
    any script and also of those that are no decimal digit (a superscript
    two, a circled digit). *)
Definition isdigit (s : str) : bool :=
  match s with
  | [] => false
  | _ :: _ => forallb numeric_digit s
  end.

Fixpoint int_acc (acc : Z) (s : str) : option Z :=
  match s with
  | [] => Some acc
  | c :: s' =>
      match decimal_value c with
      | Some d => int_acc (10 * acc + d) s'
      | None => None
      end
  end.

(** [int(s)] for a string [s] for which [s.isdigit()] holds, the only ones
    the module converts: the number its characters write in base 10 when
    they are all decimal digits, and [None], for the [ValueError] that
    [int] raises, when one of them is not or when they are more than the
    interpreter converts (it looks at its bound for more than 640 digits). *)
Definition int (s : str) : option Z :=
  match s with
  | [] => None
  | _ :: _ =>
      let digits := List.length s in
      if (640 <? digits) && (0 <? int_max_str_digits) && (int_max_str_digits <? digits)
      then None
      else int_acc 0 s
  end.

(** [s.split()]: the maximal runs of characters that are not whitespace.
    [cur] is the run being read, reversed. *)
Fixpoint split_acc (cur : list N) (s : str) : list str :=
  let flush (k : list str) :=
    match cur with
    | [] => k
    | _ :: _ => rev cur :: k
    end in
  match s with
  | [] => flush []
  | c :: s' =>
      if whitespace c then flush (split_acc [] s')
      else split_acc (c :: cur) s'
  end.

Definition split (s : str) : list str := split_acc [] s.

End Strings.

End Py.
Import Py.

Declare Scope py_scope.
Delimit Scope py_scope with py.
Notation "x <- c ;; k" := (bind c (fun x => k))
  (at level 61, c at next level, right associativity) : py_scope.
Notation "' pat <- c ;; k" := (bind c (fun x => match x with pat => k end))
  (at level 61, pat pattern, c at next level, right associativity) : py_scope.
Notation "x <-! c ;; k" := (rbind c (fun x => k))
  (at level 61, c at next level, right associativity) : py_scope.
Notation "' pat <-! c ;; k" := (rbind c (fun x => match x with pat => k end))
  (at level 61, pat pattern, c at next level, right associativity) : py_scope.
Open Scope py_scope.

(* ------------------------------------------------------------------ *)
(** ** Identifiers, dictionaries and [sorted] *)

(** An identifier is an index position (an [int]) or, once resolved through
    [config["ids"]], whatever the lookup table holds: an [int] or a [str].
    Two identifiers are the same dictionary key exactly when they are equal
    here. *)
Inductive pyid : Type :=
| IdInt (i : Z)
| IdStr (s : str).

Definition pyid_eq_dec (a b : pyid) : {a = b} + {a <> b}.
Proof. decide equality; [apply Z.eq_dec | apply str_eq_dec]. Defined.

Definition pyid_eqb (a b : pyid) : bool :=
  if pyid_eq_dec a b then true else false.

Section Dict.
Variable V : Type.

(** A [dict] keyed by identifiers: the items in insertion order, which is the
    order [items()] yields them in. *)
Definition dict : Type := list (pyid * V).

(** [k in d] *)
Fixpoint dict_mem (k : pyid) (d : dict) : bool :=
  match d with
  | [] => false
  | (k', _) :: d' => pyid_eqb k' k || dict_mem k d'
  end.

(** [d.get(k)] *)
Fixpoint dict_get (k : pyid) (d : dict) : option V :=
  match d with
  | [] => None
  | (k', v) :: d' => if pyid_eqb k' k then Some v else dict_get k d'
  end.

(** [d[k]], which raises [KeyError] on a missing key. *)
Definition dict_getitem (k : pyid) (d : dict) : result V :=
  match dict_get k d with
  | Some v => Ok v
  | None => Raise KeyError
  end.

(** [d[k] = v]: an existing key keeps its place, a new one goes last. *)
Fixpoint dict_set (k : pyid) (v : V) (d : dict) : dict :=
  match d with
  | [] => [(k, v)]
  | (k', v') :: d' =>
      if pyid_eqb k' k then (k', v) :: d' else (k', v') :: dict_set k v d'
  end.

Variable lt : V -> V -> bool.

(** [sorted(items, key=lambda x: x[1], reverse=True)].  Python's sort is
    stable, also with [reverse=True]: items come out by decreasing value, and
    items whose values do not compare as smaller one way or the other keep the
    order they came in.  [insert_desc x l] puts [x], which came before every
    item of [l], in front of the first item that is not larger than it. *)
Fixpoint insert_desc (x : pyid * V) (l : list (pyid * V)) : list (pyid * V) :=
  match l with
  | [] => [x]
  | y :: l' => if lt (snd x) (snd y) then y :: insert_desc x l' else x :: l
  end.

Definition sorted_desc (items : list (pyid * V)) : list (pyid * V) :=
  fold_right insert_desc [] items.

End Dict.

(* ------------------------------------------------------------------ *)
(** ** Score arithmetic *)

(** The operations the module performs on scores and weights.  In the
    running program these are Python [float]s (and [int] weights); the
    theorems below hold for every implementation of the interface, and say
    so explicitly where they need a law of arithmetic. *)
Class ScoreOps (R : Type) : Type := {
  zero : R;                 (* 0 and 0.0 *)
  one : R;                  (* 1 and 1.0 *)
  half : R;                 (* the literal 0.5 *)
  add : R -> R -> R;
  sub : R -> R -> R;
  mul : R -> R -> R;
  div : R -> R -> R;
  of_int : Z -> R;          (* an int where a float is expected *)
  ltb : R -> R -> bool      (* x < y; x > y is ltb y x *)
}.

(** Exact rational arithmetic. *)
Definition Qltb (x y : Q) : bool := negb (Qle_bool y x).

#[export] Instance Q_score : ScoreOps Q := {
  zero := 0%Q;
  one := 1%Q;
  half := (1 # 2)%Q;
  add := Qplus;
  sub := Qminus;
  mul := Qmult;
  div := Qdiv;
  of_int := inject_Z;
  ltb := Qltb
}.

(** IEEE 754 binary64, the representation of a Python [float]. *)
Definition float_of_int (z : Z) : float :=
  match z with
  | Zneg p => PrimFloat.opp (PrimFloat.of_uint63 (Uint63.of_Z (Zpos p)))
  | _ => PrimFloat.of_uint63 (Uint63.of_Z z)
  end.

#[export] Instance float_score : ScoreOps float := {
  zero := PrimFloat.zero;
  one := PrimFloat.one;
  half := 0.5%float;
  add := PrimFloat.add;
  sub := PrimFloat.sub;
  mul := PrimFloat.mul;
  div := PrimFloat.div;
  of_int := float_of_int;
  ltb := PrimFloat.ltb
}.

(* ------------------------------------------------------------------ *)
(** ** The [Search] class *)

(** A parsed query: the dictionary [database.parse] returns, seen through
    the four keys this module reads. *)
Record parsed : Type := {
  p_select : bool;                          (* "select" in parse *)
  p_limit : option str;                     (* parse.get("limit") *)
  p_similar : option (list (list str));     (* parse["similar"], when the key is there *)
  p_where : option str                      (* parse.get("where") *)
}.

(** The local [l] of [Search.limit]: [None], a [str] or, once converted, an
    [int]. *)
Inductive limit_value : Type :=
| LNone
| LStr (s : str)
| LInt (n : Z).

Definition limit_truthy (l : limit_value) : bool :=
  match l with
  | LNone => false
  | LStr s => nonempty s
  | LInt n => negb (n =? 0)%Z
  end.

(** An identifier that is an index position. *)
Definition is_position (uid : pyid) : Prop := exists i, uid = IdInt i.

Section Search.
Variable R : Type.
Context {ops : ScoreOps R} {interpreter : Interpreter}.
(** [E]: what [batchtransform] returns (the embeddings of a batch);
    [Row]: what [database.search] returns for one query. *)
Variables (E Row : Type).

(** One per-query result list: [(id, score)] pairs. *)
Definition ranked : Type := list (pyid * R).

(** [embeddings.ann] *)
Record ANN : Type := {
  ann_search : E -> Z -> list (list (Z * R))
}.

(** [embeddings.scoring].  [isnormalized k] is the answer to the [k]-th call
    of [isnormalized()] made during the batch call. *)
Record Scoring : Type := {
  batchsearch : list str -> Z -> list (list (Z * R));
  isnormalized : nat -> bool
}.

(** [embeddings.database] *)
Record Database : Type := {
  db_parse : str -> parsed;
  db_search : parsed -> list ranked -> Z -> Row
}.

(** The attributes [__init__] stores.  [config_ids] is [config["ids"]] when
    the key is there; [scoring] is already [None] for an index that is not
    sparse. *)
Record Search : Type := {
  indexids : bool;
  ann : option ANN;
  batchtransform : list str -> E;
  config_ids : option (list pyid);
  database : option Database;
  query : option (str -> str);
  scoring : option Scoring
}.

(** The [weights] argument: a number, or a sequence of numbers. *)
Inductive weights_arg : Type :=
| WNumber (w : R)
| WSeq (ws : list R).

(** What a batch call returns: the value of [search] (a list of result
    lists, or [None]) or the rows of [dbsearch]. *)
Inductive output : Type :=
| Results (r : option (list ranked))
| Rows (rows : list Row).

(** Truth value of a variable that holds [None] or a list. *)
Definition truthy {A} (o : option (list A)) : bool :=
  match o with
  | Some (_ :: _) => true
  | _ => false
  end.

(** *** [resolve] *)
Definition resolve (self : Search) (results : list (list (Z * R)))
  : result (list ranked) :=
  match config_ids self with
  | Some lookup =>
      if negb (indexids self) then
        rmap (rmap (fun '(i, score) => uid <-! getitem lookup i ;; Ok (uid, score)))
             results
      else Ok (map (map (fun '(i, score) => (IdInt i, score))) results)
  | None => Ok (map (map (fun '(i, score) => (IdInt i, score))) results)
  end.

(** *** [dense] *)
Definition positive (hits : list (list (Z * R))) : list (list (Z * R)) :=
  map (filter (fun '(_, score) => ltb zero score)) hits.

Definition dense (self : Search) (a : ANN) (queries : list str) (limit : Z)
  : result (list ranked) :=
  let embeddings := batchtransform self queries in
  let results := ann_search a embeddings limit in
  let results := positive results in
  resolve self results.

(** *** [sparse] *)
Definition sparse (self : Search) (sc : Scoring) (queries : list str) (limit : Z)
  : result (list ranked) :=
  resolve self (batchsearch sc queries limit).

(** *** [search]: the hybrid loop *)

(** Body of the innermost loop, for the entry [(uid, score)] at index [r] of
    a side whose weight is [w]. *)
Definition visit (sc : Scoring) (w : R) (uids : dict R) (entry : nat * (pyid * R))
  : M (dict R) :=
  let '(r, (uid, score)) := entry in
  let uids := if dict_mem uid uids then uids else dict_set uid zero uids in
  normalized <- consult (isnormalized sc) ;;
  current <- lift (dict_getitem uid uids) ;;
  if normalized : bool then
    ret (dict_set uid (add current (mul score w)) uids)
  else
    ret (dict_set uid (add current (mul (div one (of_int (Z.of_nat r + 1))) w)) uids).

(** Body of [for v, scores in enumerate(vectors)]. *)
Definition side (sc : Scoring) (weights : list R) (uids : dict R)
  (vs : nat * ranked) : M (dict R) :=
  let '(v, scores) := vs in
  w <- lift (getitem weights (Z.of_nat v)) ;;
  foldM (visit sc w) (enumerate (if ltb zero w then scores else [])) uids.

(** Body of [for vectors in zip(dense, sparse)]. *)
Definition fuse (sc : Scoring) (weights : list R) (limit : Z)
  (vectors : ranked * ranked) : M ranked :=
  uids <- foldM (side sc weights) (enumerate [fst vectors; snd vectors]) [] ;;
  ret (slice_to limit (sorted_desc ltb uids)).

(** [if isinstance(weights, (int, float)): weights = [weights, 1 - weights]] *)
Definition as_sequence (weights : weights_arg) : list R :=
  match weights with
  | WNumber w => [w; sub one w]
  | WSeq ws => ws
  end.

(** The branch taken when both [dense] and [sparse] are non-empty. *)
Definition hybrid (sc : Scoring) (weights : weights_arg) (limit : Z)
  (dres sres : list ranked) : M (list ranked) :=
  let weights := as_sequence weights in
  mapM (fuse sc weights limit) (combine dres sres).

Definition search (self : Search) (queries : list str) (limit : Z)
  (weights : weights_arg) : M (option (list ranked)) :=
  dres <- match ann self with
          | Some a => d <- lift (dense self a queries limit) ;; ret (Some d)
          | None => ret None
          end ;;
  sres <- match scoring self with
          | Some sc => s <- lift (sparse self sc queries limit) ;; ret (Some s)
          | None => ret None
          end ;;
  match dres, sres, scoring self with
  | Some d, Some s, Some sc =>
      if truthy dres && truthy sres then
        results <- hybrid sc weights limit d s ;; ret (Some results)
      else ret (if truthy dres then dres else sres)
  | _, _, _ => ret (if truthy dres then dres else sres)
  end.

(** *** [parse] *)
Definition parse (self : Search) (db : Database) (queries : list str)
  : list parsed :=
  map (fun q =>
         let p := db_parse db q in
         match query self with
         | Some translate =>
             if negb (p_select p) then db_parse db (translate q) else p
         | None => p
         end)
      queries.

(** *** [limit] *)

(** One iteration: [qlimit] is the largest limit so far.  A [str] that is
    not empty and passes [isdigit] is converted, and [int] raises
    [ValueError] if one of its digits is no decimal digit.  A [str] that is
    not empty and does not pass [isdigit] is still a [str] when it is
    compared with [qlimit], and [str > int] raises [TypeError]. *)
Definition limit_step (qlimit : Z) (q : parsed) : result Z :=
  let l := match p_limit q with
           | Some s => LStr s
           | None => LNone
           end in
  l <-! match l with
        | LStr s =>
            if limit_truthy l && isdigit s then
              match int s with
              | Some n => Ok (LInt n)
              | None => Raise ValueError
              end
            else Ok l
        | _ => Ok l
        end ;;
  if limit_truthy l then
    match l with
    | LInt n => Ok (if (qlimit <? n)%Z then n else qlimit)
    | _ => Raise TypeError
    end
  else Ok qlimit.

Definition limit (queries : list parsed) : result Z :=
  rfold limit_step queries 0%Z.

(** *** [extract] *)

(** Body of [for params in query["similar"]], for the query at index [x]. *)
Definition extract_params (x : nat) (st : list (nat * str) * Z)
  (params : list str) : result (list (nat * str) * Z) :=
  let '(equeries, candidates) := st in
  p0 <-! getitem params 0 ;;
  let equeries := equeries ++ [(x, p0)] in
  match params with
  | _ :: p1 :: _ =>
      if isdigit p1 then
        match int p1 with
        | Some c => Ok (equeries, if (candidates <? c)%Z then c else candidates)
        | None => Raise ValueError
        end
      else Ok (equeries, candidates)
  | _ => Ok (equeries, candidates)
  end.

Definition extract_query (st : list (nat * str) * Z) (xq : nat * parsed)
  : result (list (nat * str) * Z) :=
  let '(x, q) := xq in
  match p_similar q with
  | Some clauses => rfold (extract_params x) clauses st
  | None => Ok st
  end.

(** The generator handed to [any]: a [where] string that is not empty and
    splits into more than one token. *)
Definition multitoken (queries : list parsed) : bool :=
  existsb (fun q =>
             match p_where q with
             | Some w => nonempty w && (1 <? List.length (split w))%nat
             | None => false
             end)
          queries.

Definition extract (queries : list parsed) (limit : Z)
  : result (list (nat * str) * Z) :=
  '(equeries, candidates) <-! rfold extract_query (enumerate queries) ([], 0%Z) ;;
  let candidates :=
    if (candidates =? 0)%Z then
      if multitoken queries then (limit * 10)%Z else limit
    else candidates in
  Ok (equeries, candidates).

(** *** [dbsearch] *)
Definition dbsearch (self : Search) (db : Database) (queries : list str)
  (limit0 : Z) (weights : weights_arg) : M (list Row) :=
  let queries := parse self db queries in
  qlimit <- lift (limit queries) ;;
  let limit := Z.max limit0 qlimit in
  '(equeries, candidates) <- lift (extract queries limit) ;;
  found <- match equeries with
           | [] => ret (Some [])
           | _ :: _ => search self (map snd equeries) candidates weights
           end ;;
  mapM (fun '(x, q) =>
          let indices :=
            map fst (filter (fun '(_, (y, _)) => Nat.eqb x y) (enumerate equeries)) in
          items <- lift match found with
                        | Some l => Ok (enumerate l)
                        | None => Raise TypeError
                        end ;;
          ret (db_search db q
                 (map snd (filter (fun '(i, _) => existsb (Nat.eqb i) indices) items))
                 limit))
       (enumerate queries).

(** *** [__call__] *)
Definition call (self : Search) (queries : list str) (limit : option Z)
  (weights : option weights_arg) : M output :=
  let limit := match limit with
               | Some l => if (l =? 0)%Z then 3%Z else l
               | None => 3%Z
               end in
  let weights := match weights with
                 | Some w => w
                 | None => WNumber half
                 end in
  match ann self, scoring self with
  | None, None => ret (Results (Some (repeat [] (List.length queries))))
  | _, _ =>
      match database self with
      | Some db =>
          if negb (indexids self) then
            rows <- dbsearch self db queries limit weights ;; ret (Rows rows)
          else r <- search self queries limit weights ;; ret (Results r)
      | None => r <- search self queries limit weights ;; ret (Results r)
      end
  end.

(* ------------------------------------------------------------------ *)
(** ** Notions the statements use *)

(** The score accumulated so far for [uid]: its value in the dictionary, and
    [0.0] as long as it has none. *)
Definition accumulated (uid : pyid) (uids : dict R) : R :=
  match dict_get uid uids with
  | Some x => x
  | None => zero
  end.

(** What an entry with score [score] at 1-based rank [rank] contributes under
    weight [w]: convex combination for normalized scores, reciprocal rank
    fusion otherwise. *)
Definition contribution (normalized : bool) (rank : nat) (score w : R) : R :=
  if normalized then mul score w
  else mul (div one (of_int (Z.of_nat rank))) w.

Definition positive_score (entry : pyid * R) : Prop :=
  ltb zero (snd entry) = true.

(** *** The hybrid fusion, as the specification words it *)

(** The entries of a result list, each with its 1-based rank. *)
Definition ranks (scores : ranked) : list (nat * (pyid * R)) :=
  combine (seq 1 (List.length scores)) scores.

(** A visited entry [(rank, (uid, score))] adds its contribution to the
    accumulated score of its identifier. *)
Definition add_entry (normalized : bool) (w : R) (uids : dict R)
  (entry : nat * (pyid * R)) : dict R :=
  let uid := fst (snd entry) in
  dict_set uid
           (add (accumulated uid uids)
                (contribution normalized (fst entry) (snd (snd entry)) w))
           uids.

(** A side whose weight is above 0 is visited entry by entry, in the order
    of its ranks; a side whose weight is not contributes nothing. *)
Definition add_side (normalized : bool) (w : R) (scores : ranked) (uids : dict R)
  : dict R :=
  if ltb zero w then fold_left (add_entry normalized w) (ranks scores) uids
  else uids.

(** The fused list of one query: from no accumulated score at all, the
    dense side, then the sparse side; the identifiers by decreasing
    accumulated score, cut at [limit]. *)
Definition fused (normalized : bool) (w0 w1 : R) (limit : Z)
  (vectors : ranked * ranked) : ranked :=
  slice_to limit
           (sorted_desc ltb
              (add_side normalized w1 (snd vectors)
                        (add_side normalized w0 (fst vectors) []))).

(** The same of a whole list, whatever its identifiers are. *)
Definition scores_positive (A : Type) (l : list (A * R)) : Prop :=
  Forall (fun s => ltb zero s = true) (map snd l).

(** Scores that a weight of 1 hands on as they are: [0.0 + score * 1] is
    [score] again.  In binary64 this is so for every score but [-0.0],
    which comes back as [0.0]. *)
Definition kept_by_one (l : ranked) : Prop :=
  Forall (fun entry => add zero (mul (snd entry) one) = snd entry) l.

(** Sorted by decreasing score: no entry is smaller than the next one. *)
Definition descending (l : ranked) : Prop :=
  Sorted (fun x y => ltb (snd x) (snd y) = false) l.

(** The collaborator [sc] with the answer of its flag fixed to [b]. *)
Definition always (b : bool) (sc : Scoring) : Scoring :=
  {| batchsearch := batchsearch sc; isnormalized := fun _ => b |}.

(** Number of entries the hybrid loop visits. *)
Definition visited_side (w : R) (scores : ranked) : nat :=
  if ltb zero w then List.length scores else 0.

Definition visited (w0 w1 : R) (pairs : list (ranked * ranked)) : nat :=
  fold_right (fun p k => visited_side w0 (fst p) + visited_side w1 (snd p) + k)
             0 pairs.

(** What the entries of one side add up to for [uid], on top of [acc]: the
    contributions of the entries that carry this identifier, in the order
    of the list, each at its own rank; nothing for a side whose weight is
    not above 0. *)
Definition side_total (b : bool) (w : R) (scores : ranked) (uid : pyid) (acc : R) : R :=
  if ltb zero w then
    fold_left (fun a (e : nat * (pyid * R)) =>
                 if pyid_eqb (fst (snd e)) uid
                 then add a (contribution b (S (fst e)) (snd (snd e)) w)
                 else a)
              (enumerate scores) acc
  else acc.

(** The fused score of [uid]: from [0.0], the dense side, then the sparse
    side. *)
Definition fused_score (b : bool) (w0 w1 : R) (dl sl : ranked) (uid : pyid) : R :=
  side_total b w1 sl uid (side_total b w0 dl uid zero).

(** A result list whose identifiers are all index positions. *)
Definition positions (l : ranked) : Prop :=
  Forall (fun entry => is_position (fst entry)) l.

(** The collaborators return one list per query. *)
Definition ann_contract (self : Search) : Prop :=
  forall a, ann self = Some a ->
            forall queries k,
              List.length (ann_search a (batchtransform self queries) k)
              = List.length queries.

Definition scoring_contract (self : Search) : Prop :=
  forall sc, scoring self = Some sc ->
             forall queries k,
               List.length (batchsearch sc queries k) = List.length queries.

End Search.

Arguments Results {R Row} r.
Arguments Rows {R Row} rows.
Arguments positions {R} l.

Section Wording.
Context {interpreter : Interpreter}.

(** *** The candidate count, as the specification words it *)

(** The explicit candidate count of one similarity clause: its second
    argument, when it reads as a positive integer. *)
Definition explicit_candidate (params : list str) : option Z :=
  match params with
  | _ :: p1 :: _ =>
      if isdigit p1 then
        match int p1 with
        | Some c => if (0 <? c)%Z then Some c else None
        | None => None
        end
      else None
  | _ => None
  end.

Definition clause_candidates (clauses : list (list str)) : list Z :=
  flat_map (fun params =>
              match explicit_candidate params with
              | Some c => [c]
              | None => []
              end)
           clauses.

Definition query_candidates (q : parsed) : list Z :=
  match p_similar q with
  | Some clauses => clause_candidates clauses
  | None => []
  end.

(** The explicit candidate counts found across the whole batch. *)
Definition explicit_candidates (queries : list parsed) : list Z :=
  flat_map query_candidates queries.

(** Some query has a filter clause of more than one token. *)
Definition has_multitoken_filter (queries : list parsed) : bool :=
  existsb (fun q =>
             match p_where q with
             | Some w => (1 <? List.length (split w))%nat
             | None => false
             end)
          queries.

Definition spec_candidates (queries : list parsed) (limit : Z) : Z :=
  match explicit_candidates queries with
  | c :: cs => fold_right Z.max c cs
  | [] => if has_multitoken_filter queries then (limit * 10)%Z else limit
  end.

(** *** The limit, as the specification words it *)

(** The number a query's limit clause stands for; 0 without one. *)
Definition numeric_limit (q : parsed) : Z :=
  match p_limit q with
  | Some s =>
      if isdigit s then
        match int s with
        | Some n => n
        | None => 0%Z
        end
      else 0%Z
  | None => 0%Z
  end.

Definition largest_limit (queries : list parsed) : Z :=
  fold_right Z.max 0%Z (map numeric_limit queries).

(** The largest number of a list, 0 for the empty list. *)
Definition maxl (l : list Z) : Z := fold_right Z.max 0%Z l.

(** A similarity clause [extract] reads without raising: it has its first
    argument, and its second argument, if it passes [isdigit], is one that
    [int] converts. *)
Definition params_ok (params : list str) : Prop :=
  params <> [] /\
  forall p0 p1 rest, params = p0 :: p1 :: rest -> isdigit p1 = true -> int p1 <> None.

(** Every similarity clause of the query is such a clause. *)
Definition clauses_have_query (q : parsed) : Prop :=
  forall clauses, p_similar q = Some clauses -> Forall params_ok clauses.

(** A limit clause [Search.limit] copes with: none, an empty one, or digits
    that [int] converts. *)
Definition limit_clause_ok (q : parsed) : Prop :=
  match p_limit q with
  | Some s => s = [] \/ (isdigit s = true /\ int s <> None)
  | None => True
  end.

(** *** Notions for the other methods *)

(** The positions [lookup[i]] accepts: from [-len(lookup)] up to, not
    including, [len(lookup)]. *)
Definition in_table (A : Type) (lookup : list A) (i : Z) : Prop :=
  (- Z.of_nat (List.length lookup) <= i < Z.of_nat (List.length lookup))%Z.

(** The embeddings queries of a batch as the specification words them: one
    pair (index of the query, first argument) for every similarity clause,
    query by query and, within a query, clause by clause. *)
Definition spec_equeries (queries : list parsed) : list (nat * str) :=
  flat_map (fun xq : nat * parsed =>
              match p_similar (snd xq) with
              | Some clauses => map (fun params => (fst xq, hd [] params)) clauses
              | None => []
              end)
           (enumerate queries).

(** The results of the bulk search that belong to the query at index [x]:
    those whose embeddings query came from it, in their order. *)
Definition candidates_of (A : Type) (x : nat) (equeries : list (nat * str))
  (found : list A) : list A :=
  map snd (filter (fun p => Nat.eqb x (fst (fst p))) (combine equeries found)).

End Wording.

(* ------------------------------------------------------------------ *)
(** ** A small deployment to run the code on *)

Module Examples.

(** An interpreter with the default bound on digits and a fragment of the
    Unicode database: the ASCII digits and the ARABIC-INDIC digits, which
    are decimal digits; SUPERSCRIPT ONE, TWO and THREE, which are digits and
    no decimal digits; and the whitespace characters. *)
Definition between (lo hi c : N) : bool := (lo <=? c)%N && (c <=? hi)%N.

Definition sample_interpreter : Interpreter :=
  {| numeric_digit := fun c =>
       between 48 57 c || between 1632 1641 c ||
       (c =? 178)%N || (c =? 179)%N || (c =? 185)%N;
     decimal_value := fun c =>
       if between 48 57 c then Some (Z.of_N c - 48)%Z
       else if between 1632 1641 c then Some (Z.of_N c - 1632)%Z
       else None;
     whitespace := fun c =>
       between 9 13 c || between 28 32 c || (c =? 133)%N || (c =? 160)%N ||
       (c =? 5760)%N || between 8192 8202 c || (c =? 8232)%N || (c =? 8233)%N ||
       (c =? 8239)%N || (c =? 8287)%N || (c =? 12288)%N;
     int_max_str_digits := 4300 |}.

(** The text of the batch is all the "embedding" there is. *)
Definition E : Type := list str.

(** A row records what the database was asked. *)
Definition Row : Type := (parsed * list (ranked Q) * Z)%type.

Definition dense_hits : list (Z * Q) :=
  [(0%Z, (9 # 10)%Q); (1%Z, (1 # 10)%Q); (2%Z, 0%Q)].

Definition sparse_hits : list (Z * Q) :=
  [(1%Z, (8 # 10)%Q); (3%Z, (2 # 10)%Q)].

(** An index that finds the same hits for every query, best first. *)
Definition the_ann : ANN Q E :=
  {| ann_search := fun e k => map (fun _ => firstn (Z.to_nat k) dense_hits) e |}.

Definition the_scoring (normalized : nat -> bool) : Scoring Q :=
  {| batchsearch := fun qs k => map (fun _ => firstn (Z.to_nat k) sparse_hits) qs;
     isnormalized := normalized |}.

Definition sql_query : str := lit "select id from txtai where similar('cats') limit abc".

(** A parser that knows one SQL query and takes anything else for plain
    text to search for. *)
Definition the_parse (q : str) : parsed :=
  if str_eqb q sql_query then
    {| p_select := true; p_limit := Some (lit "abc");
       p_similar := Some [[(lit "cats")]]; p_where := Some (lit "similar('cats')") |}
  else
    {| p_select := false; p_limit := None; p_similar := Some [[q]]; p_where := None |}.

Definition the_database : Database Q Row :=
  {| db_parse := the_parse;
     db_search := fun q candidates limit => (q, candidates, limit) |}.

Definition index_of (a : option (ANN Q E)) (sc : option (Scoring Q))
  (db : option (Database Q Row)) : Search Q E Row :=
  {| indexids := false;
     ann := a;
     batchtransform := fun qs => qs;
     config_ids := None;
     database := db;
     query := None;
     scoring := sc |}.

Definition no_index : Search Q E Row := index_of None None None.
Definition dense_index : Search Q E Row := index_of (Some the_ann) None None.
Definition hybrid_index (normalized : bool) : Search Q E Row :=
  index_of (Some the_ann) (Some (the_scoring (fun _ => normalized))) None.
Definition database_index : Search Q E Row :=
  index_of (Some the_ann) None (Some the_database).

(** Parsed queries with similarity clauses and filters. *)
Definition two_clauses : parsed :=
  {| p_select := true; p_limit := None;
     p_similar := Some [[lit "cats"; lit "5"]; [lit "dogs"; lit "20"]];
     p_where := Some (lit "similar('cats', 5) and similar('dogs', 20)") |}.

Definition filtered : parsed :=
  {| p_select := true; p_limit := Some (lit "7");
     p_similar := Some [[lit "cats"]];
     p_where := Some (lit "similar('cats') and flag = 1") |}.

(** An index with sparse scoring alone. *)
Definition sparse_index : Search Q E Row :=
  index_of None (Some (the_scoring (fun _ => true))) None.

(** The identifiers of the three indexed documents. *)
Definition table : list pyid := [IdStr (lit "a"); IdStr (lit "b"); IdStr (lit "c")].

(** The dense index with its lookup table. *)
Definition resolved_index : Search Q E Row :=
  {| indexids := false;
     ann := Some the_ann;
     batchtransform := fun qs => qs;
     config_ids := Some table;
     database := None;
     query := None;
     scoring := None |}.

(** A hybrid index with a lookup table and a database, asked for index
    positions. *)
Definition bypass_index : Search Q E Row :=
  {| indexids := true;
     ann := Some the_ann;
     batchtransform := fun qs => qs;
     config_ids := Some table;
     database := Some the_database;
     query := None;
     scoring := Some (the_scoring (fun _ => false)) |}.

(** A database whose queries have no similarity clause. *)
Definition plain_database : Database Q Row :=
  {| db_parse := fun _ => {| p_select := true; p_limit := Some (lit "7");
                             p_similar := None; p_where := Some (lit "flag = 1") |};
     db_search := fun q candidates limit => (q, candidates, limit) |}.

Definition plain_index : Search Q E Row :=
  index_of (Some the_ann) None (Some plain_database).

(** A parsed query with a similarity clause that has no argument. *)
Definition no_argument : parsed :=
  {| p_select := true; p_limit := None;
     p_similar := Some [[(lit "cats")]; []]; p_where := None |}.

(** A superscript two (U+00B2), and a parsed query that has it as limit
    clause and as second argument of its similarity clause. *)
Definition superscript_two : str := [178%N].

Definition squared : parsed :=
  {| p_select := true; p_limit := Some superscript_two;
     p_similar := Some [[lit "cats"; superscript_two]]; p_where := None |}.

(** The same second argument, before a clause without arguments. *)
Definition squared_first : parsed :=
  {| p_select := true; p_limit := None;
     p_similar := Some [[lit "cats"; superscript_two]; []]; p_where := None |}.

(** A hybrid index over binary64 scores, the sparse ones normalized. *)
Definition float_ann : ANN float E :=
  {| ann_search := fun e k =>
       map (fun _ => firstn (Z.to_nat k) [(0%Z, 0.75%float); (1%Z, 0.125%float)]) e |}.

Definition float_scoring : Scoring float :=
  {| batchsearch := fun qs k =>
       map (fun _ => firstn (Z.to_nat k) [(1%Z, 0.5%float); (3%Z, 0.25%float)]) qs;
     isnormalized := fun _ => true |}.

Definition float_index : Search float E unit :=
  {| indexids := false;
     ann := Some float_ann;
     batchtransform := fun qs => qs;
     config_ids := None;
     database := None;
     query := None;
     scoring := Some float_scoring |}.

Definition float_dense_lists : list (ranked float) :=
  [[(IdInt 0, 0.75%float); (IdInt 1, 0.125%float)]].

Definition float_sparse_lists : list (ranked float) :=
  [[(IdInt 1, 0.5%float); (IdInt 3, 0.25%float)]].

(** The result lists of one query, identifiers resolved. *)
Definition dense_lists : list (ranked Q) :=
  [[(IdInt 0, (9 # 10)%Q); (IdInt 1, (1 # 10)%Q)]].

Definition sparse_lists : list (ranked Q) :=
  [[(IdInt 1, (8 # 10)%Q); (IdInt 3, (2 # 10)%Q)]].

End Examples.

(* ------------------------------------------------------------------ *)
(** * Properties *)

Section Properties.
Variable R : Type.
Context {ops : ScoreOps R} {interpreter : Interpreter}.
Variables E Row : Type.

Implicit Types (uids : dict R) (sc : Scoring R) (self : Search R E Row).
Implicit Types (uid : pyid) (score w : R) (scores : ranked R).

(** ** Loops and enumerations *)

Lemma enumerate_from_snoc (A : Type) (xs : list A) (x : A) (k : nat) :
  combine (seq k (List.length (xs ++ [x]))) (xs ++ [x]) =
  combine (seq k (List.length xs)) xs ++ [(k + List.length xs, x)].
Proof.
  revert k; induction xs as [|y xs IH]; intros k; simpl.
  - now rewrite Nat.add_0_r.
  - rewrite IH. now rewrite Nat.add_succ_r.
Qed.

Lemma enumerate_snoc (A : Type) (xs : list A) (x : A) :
  enumerate (xs ++ [x]) = enumerate xs ++ [(List.length xs, x)].
Proof. unfold enumerate. now rewrite enumerate_from_snoc. Qed.

Lemma enumerate_length (A : Type) (xs : list A) :
  List.length (enumerate xs) = List.length xs.
Proof.
  unfold enumerate. rewrite length_combine, length_seq. apply Nat.min_id.
Qed.

Lemma foldM_app (A S : Type) (f : S -> A -> M S) (xs ys : list A) (s : S) (n : nat) :
  foldM f (xs ++ ys) s n =
  match foldM f xs s n with
  | Ok (s', n') => foldM f ys s' n'
  | Raise e => Raise e
  end.
Proof.
  revert s n; induction xs as [|x xs IH]; intros s n; simpl.
  - reflexivity.
  - unfold bind. destruct (f s x n) as [[s' n']|e]; [apply IH | reflexivity].
Qed.

Lemma mapM_Forall (A B : Type) (f : A -> M B) (P : B -> Prop) :
  (forall x n y n', f x n = Ok (y, n') -> P y) ->
  forall xs n ys n', mapM f xs n = Ok (ys, n') -> Forall P ys.
Proof.
  intros Hf xs; induction xs as [|x xs IH]; intros n ys n' H; simpl in H.
  - inversion H; constructor.
  - unfold bind, ret in H.
    destruct (f x n) as [[y n1]|e] eqn:Hx; [|discriminate].
    destruct (mapM f xs n1) as [[ys1 n2]|e] eqn:Hxs; [|discriminate].
    inversion H; subst. constructor; eauto.
Qed.

Lemma mapM_length (A B : Type) (f : A -> M B) :
  forall xs n ys n', mapM f xs n = Ok (ys, n') -> List.length ys = List.length xs.
Proof.
  intros xs; induction xs as [|x xs IH]; intros n ys n' H; simpl in H.
  - now inversion H.
  - unfold bind, ret in H.
    destruct (f x n) as [[y n1]|e]; [|discriminate].
    destruct (mapM f xs n1) as [[ys1 n2]|e] eqn:Hxs; [|discriminate].
    inversion H; subst. simpl. f_equal. eauto.
Qed.

Lemma rmap_length (A B : Type) (f : A -> result B) :
  forall xs ys, rmap f xs = Ok ys -> List.length ys = List.length xs.
Proof.
  intros xs; induction xs as [|x xs IH]; intros ys H; simpl in H.
  - now inversion H.
  - destruct (f x) as [y|e]; [|discriminate]. simpl in H.
    destruct (rmap f xs) as [ys1|e]; [|discriminate]. simpl in H.
    inversion H; subst. simpl. f_equal. auto.
Qed.

Lemma rmap_Forall2 (A B : Type) (f : A -> result B) :
  forall xs ys, rmap f xs = Ok ys -> Forall2 (fun x y => f x = Ok y) xs ys.
Proof.
  intros xs; induction xs as [|x xs IH]; intros ys H; simpl in H.
  - inversion H; constructor.
  - destruct (f x) as [y|e] eqn:Hx; [|discriminate]. simpl in H.
    destruct (rmap f xs) as [ys1|e]; [|discriminate]. simpl in H.
    inversion H; subst. constructor; auto.
Qed.

(** ** Dictionaries *)

Lemma pyid_eqb_refl uid : pyid_eqb uid uid = true.
Proof. unfold pyid_eqb. destruct (pyid_eq_dec uid uid); congruence. Qed.

Lemma pyid_eqb_neq (a b : pyid) : a <> b -> pyid_eqb a b = false.
Proof. unfold pyid_eqb. destruct (pyid_eq_dec a b); congruence. Qed.

Lemma pyid_eqb_true (a b : pyid) : pyid_eqb a b = true -> a = b.
Proof. unfold pyid_eqb. destruct (pyid_eq_dec a b); congruence. Qed.

Ltac case_key a b :=
  destruct (pyid_eq_dec a b) as [?|?];
  [ subst; rewrite ?pyid_eqb_refl in *
  | rewrite ?(@pyid_eqb_neq a b) in * by assumption ].

Lemma dict_mem_get uid uids :
  dict_mem uid uids = match dict_get uid uids with Some _ => true | None => false end.
Proof.
  induction uids as [|[k v] d IH]; simpl; [reflexivity|].
  case_key k uid; simpl; auto.
Qed.

Lemma dict_mem_In uid uids : dict_mem uid uids = true <-> In uid (map fst uids).
Proof.
  induction uids as [|[k v] d IH]; simpl.
  - split; [discriminate | tauto].
  - case_key k uid; simpl; [tauto|]. rewrite IH. split; [tauto|].
    intros [H|H]; [contradiction | exact H].
Qed.

Lemma dict_get_set_eq uid (x : R) uids : dict_get uid (dict_set uid x uids) = Some x.
Proof.
  induction uids as [|[k v] d IH]; simpl.
  - now rewrite pyid_eqb_refl.
  - case_key k uid; simpl; rewrite ?pyid_eqb_refl; auto.
    rewrite pyid_eqb_neq by assumption. exact IH.
Qed.

Lemma dict_get_set_neq uid u (x : R) uids :
  u <> uid -> dict_get u (dict_set uid x uids) = dict_get u uids.
Proof.
  intros Hne. induction uids as [|[k v] d IH]; simpl.
  - rewrite pyid_eqb_neq; congruence.
  - case_key k uid; simpl.
    + rewrite pyid_eqb_neq; congruence.
    + now rewrite IH.
Qed.

Lemma dict_set_keys uid (x : R) uids :
  map fst (dict_set uid x uids) =
  if dict_mem uid uids then map fst uids else map fst uids ++ [uid].
Proof.
  induction uids as [|[k v] d IH]; simpl; [reflexivity|].
  case_key k uid; simpl; [reflexivity|].
  rewrite IH. now destruct (dict_mem uid d).
Qed.

Lemma dict_set_fresh uid (x : R) uids :
  dict_mem uid uids = false -> dict_set uid x uids = uids ++ [(uid, x)].
Proof.
  induction uids as [|[k v] d IH]; simpl; [reflexivity|].
  case_key k uid; simpl; [discriminate|]. intros H. now rewrite IH.
Qed.

Lemma dict_set_last uid (x y : R) uids :
  dict_mem uid uids = false ->
  dict_set uid y (uids ++ [(uid, x)]) = uids ++ [(uid, y)].
Proof.
  induction uids as [|[k v] d IH]; simpl.
  - now rewrite pyid_eqb_refl.
  - case_key k uid; simpl; [discriminate|]. intros H. now rewrite IH.
Qed.

Lemma dict_get_last uid (x : R) uids :
  dict_mem uid uids = false -> dict_get uid (uids ++ [(uid, x)]) = Some x.
Proof.
  induction uids as [|[k v] d IH]; simpl.
  - now rewrite pyid_eqb_refl.
  - case_key k uid; simpl; [discriminate|]. exact IH.
Qed.

Lemma dict_set_NoDup uid (x : R) uids :
  NoDup (map fst uids) -> NoDup (map fst (dict_set uid x uids)).
Proof.
  intros H. rewrite dict_set_keys.
  destruct (dict_mem uid uids) eqn:Hm; [exact H|].
  apply NoDup_app; [exact H | repeat constructor; simpl; tauto |].
  intros a Ha [<-|[]]. apply dict_mem_In in Ha. congruence.
Qed.

(** ** The hybrid loop *)

Lemma accumulated_present uid uids :
  dict_mem uid uids = true -> dict_get uid uids = Some (accumulated uid uids).
Proof.
  rewrite dict_mem_get. unfold accumulated.
  destruct (dict_get uid uids); [reflexivity | discriminate].
Qed.

Lemma accumulated_absent uid uids :
  dict_mem uid uids = false -> accumulated uid uids = zero.
Proof.
  rewrite dict_mem_get. unfold accumulated.
  destruct (dict_get uid uids); [discriminate | reflexivity].
Qed.

(** One visit always succeeds, consults the flag once, and stores the sum of
    the score accumulated so far and the entry's contribution. *)
Lemma visit_run sc w uids (r : nat) uid score (n : nat) :
  visit sc w uids (r, (uid, score)) n =
  Ok (dict_set uid
        (add (accumulated uid uids) (contribution (isnormalized sc n) (S r) score w))
        (if dict_mem uid uids then uids else dict_set uid zero uids),
      S n).
Proof.
  unfold visit, bind, consult, lift, dict_getitem, contribution, ret.
  rewrite Nat2Z.inj_succ, <- Z.add_1_r.
  destruct (dict_mem uid uids) eqn:Hm.
  - rewrite (accumulated_present _ _ Hm). now destruct (isnormalized sc n).
  - rewrite dict_get_set_eq, (accumulated_absent _ _ Hm).
    now destruct (isnormalized sc n).
Qed.

Lemma visit_get sc w uids (r : nat) uid score (n : nat) :
  exists uids',
    visit sc w uids (r, (uid, score)) n = Ok (uids', S n) /\
    dict_get uid uids' =
      Some (add (accumulated uid uids)
                (contribution (isnormalized sc n) (S r) score w)) /\
    (forall u, u <> uid -> dict_get u uids' = dict_get u uids).
Proof.
  eexists; split; [apply visit_run|]. split.
  - apply dict_get_set_eq.
  - intros u Hu. rewrite dict_get_set_neq by assumption.
    destruct (dict_mem uid uids); [reflexivity|].
    now apply dict_get_set_neq.
Qed.

(** The loop over the entries of one side always runs to its end, with one
    consultation of the flag per entry. *)
Lemma foldM_visit_total sc w (es : list (nat * (pyid * R))) :
  forall uids n, exists uids',
    foldM (visit sc w) es uids n = Ok (uids', n + List.length es).
Proof.
  induction es as [|[r [uid score]] es IH]; intros uids n; cbn [foldM List.length].
  - exists uids. unfold ret. now rewrite Nat.add_0_r.
  - unfold bind. rewrite visit_run.
    destruct (IH (dict_set uid
        (add (accumulated uid uids) (contribution (isnormalized sc n) (S r) score w))
        (if dict_mem uid uids then uids else dict_set uid zero uids)) (S n))
      as [uids' H].
    exists uids'. rewrite H. now rewrite Nat.add_succ_r.
Qed.

Lemma side_run sc (weights : list R) uids (v : nat) scores w (n : nat) :
  getitem weights (Z.of_nat v) = Ok w ->
  side sc weights uids (v, scores) n =
  foldM (visit sc w) (enumerate (if ltb zero w then scores else [])) uids n.
Proof. intros H. unfold side, bind, lift. now rewrite H. Qed.

(** The next entry of a side: with weight above 0 it is visited, with one
    consultation of the flag, and its identifier's accumulated score grows
    by the entry's contribution, every other identifier keeping its score;
    with another weight nothing of the side is visited. *)
Lemma side_next_entry sc (weights : list R) (v : nat) w
    scores uid score uids (n : nat) :
  getitem weights (Z.of_nat v) = Ok w ->
  exists uids1 n1,
    side sc weights uids (v, scores) n = Ok (uids1, n1) /\
    if ltb zero w then
      exists uids2,
        side sc weights uids (v, scores ++ [(uid, score)]) n = Ok (uids2, S n1) /\
        dict_get uid uids2 =
          Some (add (accumulated uid uids1)
                    (contribution (isnormalized sc n1)
                                  (List.length scores + 1) score w)) /\
        (forall u, u <> uid -> dict_get u uids2 = dict_get u uids1)
    else
      uids1 = uids /\ n1 = n /\
      side sc weights uids (v, scores ++ [(uid, score)]) n = Ok (uids, n).
Proof.
  intros Hw. rewrite !side_run with (w := w) by exact Hw.
  destruct (ltb zero w) eqn:Hpos.
  - destruct (foldM_visit_total sc w (enumerate scores) uids n) as [uids1 H1].
    exists uids1, (n + List.length (enumerate scores)). split; [exact H1|].
    rewrite enumerate_snoc, foldM_app, H1. cbn [foldM]. unfold bind.
    destruct (visit_get sc w uids1 (List.length scores) uid score
                (n + List.length (enumerate scores))) as (uids2 & Hv & Hget & Hframe).
    exists uids2. rewrite Hv. unfold ret.
    rewrite Nat.add_1_r. auto.
  - exists uids, n. simpl. unfold ret. auto.
Qed.

(** ** Sorting and truncation *)

Lemma insert_desc_perm (x : pyid * R) (l : list (pyid * R)) :
  Permutation (insert_desc ltb x l) (x :: l).
Proof.
  induction l as [|y l IH]; simpl; [reflexivity|].
  destruct (ltb (snd x) (snd y)); [|reflexivity].
  rewrite IH. apply perm_swap.
Qed.

Lemma sorted_desc_perm (l : list (pyid * R)) : Permutation (sorted_desc ltb l) l.
Proof.
  induction l as [|x l IH]; simpl; [reflexivity|].
  rewrite insert_desc_perm. now constructor.
Qed.

(** A list that is already in decreasing order comes back as it is: the sort
    is stable, and moves nothing it does not have to. *)
Lemma sorted_desc_descending (l : ranked R) : descending l -> sorted_desc ltb l = l.
Proof.
  unfold descending. induction 1 as [|x l Hs IH Hd]; simpl; [reflexivity|].
  fold (sorted_desc ltb l). rewrite IH.
  destruct Hd as [|y l' Hxy]; simpl; [reflexivity|]. now rewrite Hxy.
Qed.

Lemma slice_to_firstn (A : Type) (k : Z) (l : list A) :
  exists m, slice_to k l = firstn m l.
Proof. unfold slice_to. destruct (k <? 0)%Z; eauto. Qed.

Lemma slice_to_length (A : Type) (k : Z) (l : list A) :
  (0 <= k)%Z -> (Z.of_nat (List.length (slice_to k l)) <= k)%Z.
Proof.
  intros Hk. unfold slice_to.
  destruct (k <? 0)%Z eqn:Hneg; [apply Z.ltb_lt in Hneg; lia|].
  rewrite length_firstn. lia.
Qed.

Lemma slice_to_all (A : Type) (k : Z) (l : list A) :
  (Z.of_nat (List.length l) <= k)%Z -> slice_to k l = l.
Proof.
  intros Hk. unfold slice_to.
  destruct (k <? 0)%Z eqn:Hneg; [apply Z.ltb_lt in Hneg; lia|].
  apply firstn_all2. lia.
Qed.

Lemma NoDup_firstn (A : Type) (m : nat) (l : list A) : NoDup l -> NoDup (firstn m l).
Proof.
  intros H. rewrite <- (firstn_skipn m l) in H.
  now apply NoDup_app_remove_r in H.
Qed.

(** ** Invariants of the fused lists *)

Lemma foldM_invariant (A S : Type) (f : S -> A -> M S) (P : S -> Prop) :
  (forall s x n s' n', P s -> f s x n = Ok (s', n') -> P s') ->
  forall xs s n s' n', P s -> foldM f xs s n = Ok (s', n') -> P s'.
Proof.
  intros Hf xs; induction xs as [|x xs IH]; intros s n s' n' Hs H; simpl in H.
  - unfold ret in H. now inversion H; subst.
  - unfold bind in H. destruct (f s x n) as [[s1 n1]|e] eqn:Hx; [|discriminate].
    eapply IH; [|exact H]. eauto.
Qed.

Lemma visit_NoDup sc w uids (entry : nat * (pyid * R)) (n : nat) uids' (n' : nat) :
  NoDup (map fst uids) -> visit sc w uids entry n = Ok (uids', n') ->
  NoDup (map fst uids').
Proof.
  destruct entry as [r [uid score]]. intros Hnd H.
  rewrite visit_run in H. inversion H; subst.
  apply dict_set_NoDup. destruct (dict_mem uid uids); [exact Hnd|].
  now apply dict_set_NoDup.
Qed.

Lemma side_NoDup sc (weights : list R) uids (vs : nat * ranked R) (n : nat)
    uids' (n' : nat) :
  NoDup (map fst uids) -> side sc weights uids vs n = Ok (uids', n') ->
  NoDup (map fst uids').
Proof.
  destruct vs as [v scores]. intros Hnd H. unfold side, bind, lift in H.
  destruct (getitem weights (Z.of_nat v)) as [w|e]; [|discriminate].
  eapply foldM_invariant with (P := fun d => NoDup (map fst d)); [|exact Hnd|exact H].
  intros; eapply visit_NoDup; eauto.
Qed.

(** What [fuse] returns is a prefix of a rearrangement of a dictionary's
    items. *)
Lemma fuse_inv sc (weights : list R) (limit : Z) (vectors : ranked R * ranked R)
    (n : nat) (l : ranked R) (n' : nat) :
  fuse sc weights limit vectors n = Ok (l, n') ->
  exists uids, NoDup (map fst uids) /\ l = slice_to limit (sorted_desc ltb uids).
Proof.
  unfold fuse, bind, ret. intros H.
  destruct (foldM (side sc weights) (enumerate [fst vectors; snd vectors]) [] n)
    as [[uids n1]|e] eqn:Hfold; [|discriminate].
  inversion H; subst. exists uids. split; [|reflexivity].
  eapply foldM_invariant with (P := fun d => NoDup (map fst d)); [| |exact Hfold].
  - intros; eapply side_NoDup; eauto.
  - constructor.
Qed.

(** C7.  A hybrid fusion run with a limit that is a count (not negative)
    returns, for every query of the batch, at most [limit] entries. *)
Theorem hybrid_at_most_limit sc (weights : weights_arg R) (limit : Z)
    (dres sres : list (ranked R)) (n : nat) (results : list (ranked R)) (n' : nat) :
  (0 <= limit)%Z ->
  hybrid sc weights limit dres sres n = Ok (results, n') ->
  Forall (fun l => (Z.of_nat (List.length l) <= limit)%Z) results.
Proof.
  intros Hlimit H. unfold hybrid in H.
  eapply mapM_Forall; [|exact H].
  intros vectors m l m' Hfuse.
  destruct (fuse_inv _ _ _ _ _ Hfuse) as (uids & _ & ->).
  now apply slice_to_length.
Qed.

(** C10.  In every list a hybrid fusion returns, each identifier occurs at
    most once, whatever the two input lists share. *)
Theorem hybrid_identifiers_unique sc (weights : weights_arg R) (limit : Z)
    (dres sres : list (ranked R)) (n : nat) (results : list (ranked R)) (n' : nat) :
  hybrid sc weights limit dres sres n = Ok (results, n') ->
  Forall (fun l => NoDup (map fst l)) results.
Proof.
  intros H. unfold hybrid in H.
  eapply mapM_Forall; [|exact H].
  intros vectors m l m' Hfuse.
  destruct (fuse_inv _ _ _ _ _ Hfuse) as (uids & Hnd & ->).
  destruct (slice_to_firstn limit (sorted_desc ltb uids)) as [k ->].
  rewrite <- firstn_map. apply NoDup_firstn.
  eapply Permutation_NoDup; [|exact Hnd].
  apply Permutation_map, Permutation_sym, sorted_desc_perm.
Qed.

(** ** Dense retrieval *)

Lemma positive_scores_positive (hits : list (list (Z * R))) :
  Forall (scores_positive (A:=Z)) (positive hits).
Proof.
  unfold positive. apply Forall_map, Forall_forall. intros r _.
  unfold scores_positive. apply Forall_map, Forall_forall.
  intros [i score] Hin. apply filter_In in Hin. now destruct Hin.
Qed.

(** [resolve] changes identifiers only: list by list, the scores stay what
    they were, in the same order. *)
Lemma resolve_scores self (results : list (list (Z * R))) (res : list (ranked R)) :
  resolve self results = Ok res ->
  Forall2 (fun raw l => map snd l = map snd raw) results res.
Proof.
  assert (Hint : forall rs : list (list (Z * R)),
             Forall2 (fun raw l => map snd l = map snd raw) rs
                     (map (map (fun '(i, score) => (IdInt i, score))) rs)).
  { induction rs as [|r rs IH]; simpl; constructor; [|exact IH].
    rewrite map_map. apply map_ext. now intros [i score]. }
  unfold resolve. destruct (config_ids self) as [lookup|].
  - destruct (indexids self); simpl.
    + intros H; inversion H; subst. apply Hint.
    + intros H. apply rmap_Forall2 in H.
      induction H as [|raw l rs ls Hl _ IH]; constructor; [|exact IH].
      apply rmap_Forall2 in Hl. clear -Hl.
      induction Hl as [|[i score] [uid score'] raw l Hx _ IH]; simpl; [reflexivity|].
      destruct (getitem lookup i) as [u|e]; [|discriminate]. simpl in Hx.
      inversion Hx; subst. now f_equal.
  - intros H; inversion H; subst. apply Hint.
Qed.

Lemma dense_scores_positive self (a : ANN R E) (queries : list str) (limit : Z)
    (res : list (ranked R)) :
  dense self a queries limit = Ok res -> Forall (scores_positive (A:=pyid)) res.
Proof.
  unfold dense. intros H. apply resolve_scores in H.
  pose proof (positive_scores_positive
                (ann_search a (batchtransform self queries) limit)) as Hpos.
  revert Hpos. induction H as [|raw l rs ls Hl _ IH]; intros Hpos; constructor.
  - inversion Hpos; subst. unfold scores_positive in *. now rewrite Hl.
  - apply IH. now inversion Hpos.
Qed.

Lemma scores_positive_entries (l : ranked R) :
  scores_positive l <-> Forall (@positive_score R _) l.
Proof. unfold scores_positive, positive_score. now rewrite Forall_map. Qed.

(** C6.  Dense retrieval keeps only entries with a score above 0: this holds
    for the index hits once filtered (before identifiers are resolved), for
    the lists [dense] returns (after resolution, the ones handed to the
    fusion), and for what [search] returns to the caller when dense
    retrieval is the only one configured. *)
Theorem dense_results_positive self (a : ANN R E) (queries : list str)
    (limit : Z) (res : list (ranked R)) :
  ann self = Some a ->
  dense self a queries limit = Ok res ->
  Forall (Forall (fun hit : Z * R => ltb zero (snd hit) = true))
         (positive (ann_search a (batchtransform self queries) limit)) /\
  Forall (Forall (@positive_score R _)) res /\
  (scoring self = None ->
   forall weights n,
     search self queries limit weights n
     = Ok (if truthy (Some res) then Some res else None, n)).
Proof.
  intros Hann Hdense. split; [|split].
  - eapply Forall_impl; [|apply positive_scores_positive].
    intros l Hl. unfold scores_positive in Hl. now rewrite Forall_map in Hl.
  - eapply Forall_impl; [|eapply dense_scores_positive; exact Hdense].
    intros l. apply scores_positive_entries.
  - intros Hsc weights n. unfold search, bind, lift, ret.
    rewrite Hann, Hsc, Hdense. reflexivity.
Qed.

(** ** Consultations of the normalization flag *)

Lemma getitem_0 (A : Type) (x : A) (xs : list A) : getitem (x :: xs) (Z.of_nat 0) = Ok x.
Proof. reflexivity. Qed.

Lemma getitem_1 (A : Type) (x y : A) (xs : list A) :
  getitem (x :: y :: xs) (Z.of_nat 1) = Ok y.
Proof. reflexivity. Qed.

Lemma side_count sc (weights : list R) uids (v : nat) scores w (n : nat) :
  getitem weights (Z.of_nat v) = Ok w ->
  exists uids', side sc weights uids (v, scores) n = Ok (uids', n + visited_side w scores).
Proof.
  intros Hw. rewrite side_run with (w := w) by exact Hw. unfold visited_side.
  destruct (foldM_visit_total sc w (enumerate (if ltb zero w then scores else []))
              uids n) as [uids' H].
  exists uids'. rewrite H. rewrite enumerate_length. now destruct (ltb zero w).
Qed.

Lemma fuse_count sc (w0 w1 : R) (rest : list R) (limit : Z)
    (vectors : ranked R * ranked R) (n : nat) :
  exists l, fuse sc (w0 :: w1 :: rest) limit vectors n
            = Ok (l, n + (visited_side w0 (fst vectors) + visited_side w1 (snd vectors))).
Proof.
  unfold fuse. cbn [enumerate List.length seq combine foldM]. unfold bind.
  destruct (side_count sc (w0 :: w1 :: rest) [] 0 (fst vectors) n (getitem_0 w0 _))
    as [u0 H0].
  rewrite H0.
  destruct (side_count sc (w0 :: w1 :: rest) u0 1 (snd vectors)
              (n + visited_side w0 (fst vectors)) (getitem_1 w0 w1 _))
    as [u1 H1].
  rewrite H1. unfold ret. eexists. now rewrite Nat.add_assoc.
Qed.


(** The flag matters only through the answers it gives during the call:
    two collaborators that answer alike at the consultations made yield the
    same run. *)
Lemma foldM_visit_ext sc sc' w (es : list (nat * (pyid * R))) :
  forall uids n,
    (forall k, n <= k < n + List.length es -> isnormalized sc' k = isnormalized sc k) ->
    foldM (visit sc' w) es uids n = foldM (visit sc w) es uids n.
Proof.
  induction es as [|[r [uid score]] es IH]; intros uids n Hsame;
    cbn [foldM List.length] in *; [reflexivity|].
  unfold bind. rewrite !visit_run, (Hsame n) by lia.
  apply IH. intros k Hk. apply Hsame. lia.
Qed.

Lemma side_ext sc sc' (weights : list R) uids (v : nat) scores w (n : nat) :
  getitem weights (Z.of_nat v) = Ok w ->
  (forall k, n <= k < n + visited_side w scores ->
             isnormalized sc' k = isnormalized sc k) ->
  side sc' weights uids (v, scores) n = side sc weights uids (v, scores) n.
Proof.
  intros Hw Hsame. rewrite !side_run with (w := w) by exact Hw.
  apply foldM_visit_ext. intros k Hk. apply Hsame.
  rewrite enumerate_length in Hk. unfold visited_side.
  destruct (ltb zero w); exact Hk.
Qed.

Lemma fuse_ext sc sc' (w0 w1 : R) (rest : list R) (limit : Z)
    (vectors : ranked R * ranked R) (n : nat) :
  (forall k, n <= k < n + (visited_side w0 (fst vectors) + visited_side w1 (snd vectors)) ->
             isnormalized sc' k = isnormalized sc k) ->
  fuse sc' (w0 :: w1 :: rest) limit vectors n = fuse sc (w0 :: w1 :: rest) limit vectors n.
Proof.
  intros Hsame. unfold fuse. cbn [enumerate List.length seq combine foldM].
  unfold bind.
  rewrite (@side_ext sc sc' (w0 :: w1 :: rest) [] 0 (fst vectors) w0 n (getitem_0 w0 _))
    by (intros k Hk; apply Hsame; lia).
  destruct (side_count sc (w0 :: w1 :: rest) [] 0 (fst vectors) n (getitem_0 w0 _))
    as [u0 H0].
  rewrite H0.
  rewrite (@side_ext sc sc' (w0 :: w1 :: rest) u0 1 (snd vectors) w1 _
             (getitem_1 w0 w1 _))
    by (intros k Hk; apply Hsame; lia).
  reflexivity.
Qed.

Lemma mapM_fuse_ext sc sc' (w0 w1 : R) (rest : list R) (limit : Z)
    (pairs : list (ranked R * ranked R)) :
  forall n,
    (forall k, n <= k < n + visited w0 w1 pairs ->
               isnormalized sc' k = isnormalized sc k) ->
    mapM (fuse sc' (w0 :: w1 :: rest) limit) pairs n
    = mapM (fuse sc (w0 :: w1 :: rest) limit) pairs n.
Proof.
  induction pairs as [|p pairs IH]; intros n Hsame; cbn [mapM visited fold_right] in *;
    [reflexivity|].
  fold (visited w0 w1 pairs) in Hsame. unfold bind.
  rewrite (@fuse_ext sc sc' w0 w1 rest limit p n) by (intros k Hk; apply Hsame; lia).
  destruct (fuse_count sc w0 w1 rest limit p n) as [l Hl]. rewrite Hl.
  rewrite IH by (intros k Hk; apply Hsame; lia). reflexivity.
Qed.

(** [fuse] is the dense side, then the sparse side, then sort and cut. *)
Lemma fuse_two_sides sc (weights : list R) (limit : Z) (dl sl : ranked R) (n : nat) :
  fuse sc weights limit (dl, sl) n =
  (u0 <- side sc weights [] (0, dl) ;;
   u1 <- side sc weights u0 (1, sl) ;;
   ret (slice_to limit (sorted_desc ltb u1))) n.
Proof.
  unfold fuse. cbn [enumerate List.length seq combine foldM fst snd]. unfold bind.
  destruct (side sc weights [] (0, dl) n) as [[u0 n0]|e]; [|reflexivity].
  now destruct (side sc weights u0 (1, sl) n0) as [[u1 n1]|e].
Qed.


(** ** The hybrid fusion, entry by entry *)

Lemma dict_set_twice uid (x v : R) uids :
  dict_mem uid uids = false ->
  dict_set uid v (dict_set uid x uids) = dict_set uid v uids.
Proof.
  intros Hm.
  now rewrite (@dict_set_fresh uid x uids Hm), dict_set_last,
    (@dict_set_fresh uid v uids Hm) by exact Hm.
Qed.

(** To set a missing identifier to [0.0] and add to it is to start from the
    score accumulated so far, which is [0.0] for a missing identifier. *)
Lemma visit_adds sc w uids (r : nat) uid score (n : nat) :
  visit sc w uids (r, (uid, score)) n
  = Ok (add_entry (isnormalized sc n) w uids (S r, (uid, score)), S n).
Proof.
  rewrite visit_run. unfold add_entry. cbn [fst snd].
  destruct (dict_mem uid uids) eqn:Hm; [reflexivity|].
  now rewrite dict_set_twice by exact Hm.
Qed.

Lemma foldM_visit_adds sc (b : bool) w (scores : ranked R) :
  (forall k, isnormalized sc k = b) ->
  forall (k : nat) uids (n : nat),
    foldM (visit sc w) (combine (seq k (List.length scores)) scores) uids n
    = Ok (fold_left (add_entry b w) (combine (seq (S k) (List.length scores)) scores)
                    uids,
          n + List.length scores).
Proof.
  intros Hb. induction scores as [|[uid score] scores IH]; intros k uids n;
    cbn [List.length seq combine foldM fold_left].
  - unfold ret. now rewrite Nat.add_0_r.
  - unfold bind. rewrite visit_adds, Hb, IH. now rewrite Nat.add_succ_r.
Qed.

Lemma side_adds sc (b : bool) (weights : list R) uids (v : nat) scores w (n : nat) :
  (forall k, isnormalized sc k = b) ->
  getitem weights (Z.of_nat v) = Ok w ->
  side sc weights uids (v, scores) n
  = Ok (add_side b w scores uids, n + visited_side w scores).
Proof.
  intros Hb Hw. rewrite side_run with (w := w) by exact Hw.
  unfold add_side, visited_side, ranks, enumerate.
  destruct (ltb zero w).
  - now apply foldM_visit_adds.
  - cbn [List.length seq combine foldM]. unfold ret. now rewrite Nat.add_0_r.
Qed.

Lemma fuse_adds sc (b : bool) (w0 w1 : R) (rest : list R) (limit : Z)
    (vectors : ranked R * ranked R) (n : nat) :
  (forall k, isnormalized sc k = b) ->
  fuse sc (w0 :: w1 :: rest) limit vectors n
  = Ok (fused b w0 w1 limit vectors,
        n + (visited_side w0 (fst vectors) + visited_side w1 (snd vectors))).
Proof.
  intros Hb. unfold fuse, fused.
  cbn [enumerate List.length seq combine foldM]. unfold bind.
  rewrite side_adds with (b := b) (w := w0) by (exact Hb || reflexivity).
  rewrite side_adds with (b := b) (w := w1) by (exact Hb || reflexivity).
  unfold ret. now rewrite Nat.add_assoc.
Qed.

Lemma mapM_fuse_adds sc (b : bool) (w0 w1 : R) (rest : list R) (limit : Z)
    (pairs : list (ranked R * ranked R)) :
  (forall k, isnormalized sc k = b) ->
  forall n,
    mapM (fuse sc (w0 :: w1 :: rest) limit) pairs n
    = Ok (map (fused b w0 w1 limit) pairs, n + visited w0 w1 pairs).
Proof.
  intros Hb. induction pairs as [|p pairs IH]; intros n;
    cbn [mapM map visited fold_right].
  - unfold ret. now rewrite Nat.add_0_r.
  - unfold bind. rewrite fuse_adds with (b := b) by exact Hb.
    fold (visited w0 w1 pairs). rewrite IH. unfold ret. do 2 f_equal. lia.
Qed.

(** The hybrid branch under answers of the flag that are all [b]. *)
Lemma hybrid_fused sc (weights : weights_arg R) (limit : Z)
    (d s : list (ranked R)) (w0 w1 : R) (rest : list R) (b : bool) (n : nat) :
  as_sequence weights = w0 :: w1 :: rest ->
  (forall k, n <= k < n + visited w0 w1 (combine d s) -> isnormalized sc k = b) ->
  hybrid sc weights limit d s n
  = Ok (map (fused b w0 w1 limit) (combine d s), n + visited w0 w1 (combine d s)).
Proof.
  intros Hw Hb. unfold hybrid. rewrite Hw.
  rewrite (@mapM_fuse_ext (always b sc) sc w0 w1 rest limit (combine d s) n)
    by (intros k Hk; simpl; now apply Hb).
  apply mapM_fuse_adds. reflexivity.
Qed.

(** C1.  Take a hybrid fusion with weights [w0] for the dense and [w1] for
    the sparse side, during which the sparse collaborator answers [b] each
    time its flag is consulted.  It returns, for each query, the list
    [fused] of the query's dense and sparse lists: starting from no score
    at all, each entry [(uid, score)] at 1-based rank [r] of a side whose
    weight [w] is above 0 is visited in turn and sets the accumulated score
    of [uid] to what it was (0.0 at first) plus [score * w] when [b] says
    normalized, plus [(1 / r) * w] when it does not, every other identifier
    keeping its score; a side whose weight is not above 0 leaves the
    accumulated scores alone, and none of its entries is visited: the flag
    is consulted once for each visited entry, [visited] times in all.  This
    is what [hybrid] does on any two lists of lists, and so what [search]
    returns when dense and sparse retrieval both return a non-empty list of
    lists. *)
Theorem hybrid_adds_contributions self (a : ANN R E) sc (queries : list str)
    (weights : weights_arg R) (limit : Z) (d s : list (ranked R))
    (w0 w1 : R) (rest : list R) (b : bool) (n : nat) :
  as_sequence weights = w0 :: w1 :: rest ->
  (forall k, n <= k < n + visited w0 w1 (combine d s) -> isnormalized sc k = b) ->
  hybrid sc weights limit d s n
  = Ok (map (fused b w0 w1 limit) (combine d s), n + visited w0 w1 (combine d s)) /\
  (ann self = Some a -> scoring self = Some sc ->
   dense self a queries limit = Ok d -> sparse self sc queries limit = Ok s ->
   d <> [] -> s <> [] ->
   search self queries limit weights n
   = Ok (Some (map (fused b w0 w1 limit) (combine d s)),
         n + visited w0 w1 (combine d s))) /\
  (forall w uids (r : nat) uid score,
      dict_get uid (add_entry b w uids (r, (uid, score)))
      = Some (add (accumulated uid uids)
                  (if b then mul score w
                   else mul (div one (of_int (Z.of_nat r))) w)) /\
      forall u, u <> uid ->
                dict_get u (add_entry b w uids (r, (uid, score))) = dict_get u uids) /\
  (forall w scores uids,
      ltb zero w = false ->
      add_side b w scores uids = uids /\ visited_side w scores = 0).
Proof.
  intros Hw Hb.
  pose proof (hybrid_fused sc weights limit d s Hw Hb) as Hh.
  split; [exact Hh|]. split; [|split].
  - intros Hann Hsc Hdense Hsparse Hd Hs.
    unfold search, bind, lift, ret. rewrite Hann, Hsc, Hdense, Hsparse.
    destruct d as [|dl d]; [congruence|]. destruct s as [|sl s]; [congruence|].
    cbn [truthy andb]. now rewrite Hh.
  - intros w uids r uid score. unfold add_entry, contribution. cbn [fst snd]. split.
    + apply dict_get_set_eq.
    + intros u Hu. now apply dict_get_set_neq.
  - intros w scores uids Hneg. unfold add_side, visited_side. now rewrite Hneg.
Qed.

(** ** Weights (1, 0) under normalized scores *)

Lemma dict_mem_false_In uid uids : dict_mem uid uids = false <-> ~ In uid (map fst uids).
Proof.
  rewrite <- dict_mem_In. destruct (dict_mem uid uids); split; congruence.
Qed.

Section ConvexDenseOnly.
Variable sc : Scoring R.
Hypothesis normalized : forall k, isnormalized sc k = true.
Hypothesis one_positive : ltb zero one = true.
Hypothesis zero_not_positive : ltb zero zero = false.
(** [0.0 + x * 1] is [x] again, for a score [x > 0]. *)
Hypothesis add_zero_mul_one : forall x : R, ltb zero x = true -> add zero (mul x one) = x.

(** With weight 1, visiting entries whose identifiers are new and pairwise
    distinct appends them to the dictionary as they are. *)
Lemma foldM_visit_fresh (l : ranked R) :
  forall (k : nat) uids (n : nat),
    NoDup (map fst l) ->
    (forall u, In u (map fst l) -> ~ In u (map fst uids)) ->
    scores_positive l ->
    foldM (visit sc one) (combine (seq k (List.length l)) l) uids n
    = Ok (uids ++ l, n + List.length l).
Proof.
  induction l as [|[uid score] l IH]; intros k uids n Hnd Hfresh Hpos;
    cbn [List.length seq combine foldM].
  - unfold ret. now rewrite app_nil_r, Nat.add_0_r.
  - simpl in Hnd. inversion Hnd as [|? ? Hnotin Hnd']; subst.
    unfold scores_positive in Hpos. simpl in Hpos.
    inversion Hpos as [|? ? Hscore Hpos']; subst.
    assert (Hm : dict_mem uid uids = false).
    { apply dict_mem_false_In, Hfresh. now left. }
    unfold bind. rewrite visit_run, Hm, accumulated_absent, normalized by exact Hm.
    unfold contribution. rewrite add_zero_mul_one by exact Hscore.
    rewrite (@dict_set_fresh uid zero uids Hm), dict_set_last by exact Hm.
    rewrite IH; [| exact Hnd' | | exact Hpos'].
    + rewrite <- app_assoc. simpl. now rewrite Nat.add_succ_r.
    + intros u Hu. rewrite map_app, in_app_iff. simpl.
      intros [Hin|[<-|[]]]; [|contradiction].
      apply (Hfresh u); [now right | exact Hin].
Qed.

Lemma fuse_one_zero (limit : Z) (dl sl : ranked R) (n : nat) :
  descending dl -> NoDup (map fst dl) -> (Z.of_nat (List.length dl) <= limit)%Z ->
  scores_positive dl ->
  fuse sc [one; zero] limit (dl, sl) n = Ok (dl, n + List.length dl).
Proof.
  intros Hdesc Hnd Hlen Hpos. unfold fuse.
  cbn [enumerate List.length seq combine foldM fst snd]. unfold bind.
  rewrite side_run with (w := one) by reflexivity. rewrite one_positive.
  unfold enumerate at 1. rewrite foldM_visit_fresh by (auto; intros ? ? []).
  rewrite side_run with (w := zero) by reflexivity. rewrite zero_not_positive.
  cbn [enumerate List.length seq combine foldM app]. unfold ret.
  now rewrite (sorted_desc_descending Hdesc), slice_to_all.
Qed.

Lemma mapM_fuse_one_zero (limit : Z) (d : list (ranked R)) :
  forall (s : list (ranked R)) (n : nat),
    List.length s = List.length d ->
    Forall (fun l => descending l /\ NoDup (map fst l) /\
                     (Z.of_nat (List.length l) <= limit)%Z /\ scores_positive l) d ->
    exists n', mapM (fuse sc [one; zero] limit) (combine d s) n = Ok (d, n').
Proof.
  induction d as [|dl d IH]; intros s n Hlen Hd.
  - exists n. reflexivity.
  - destruct s as [|sl s]; [discriminate|]. simpl in Hlen.
    inversion Hd as [|? ? (Hdesc & Hnd & Hk & Hpos) Hd']; subst.
    cbn [combine mapM]. unfold bind. rewrite fuse_one_zero by assumption.
    destruct (IH s (n + List.length dl)) as [n' Hn']; [lia | exact Hd' |].
    rewrite Hn'. now exists n'.
Qed.

(** C5.  Let the sparse collaborator report normalized scores, and let every
    list dense retrieval returns be in decreasing order of score, with
    pairwise distinct identifiers and at most [limit] entries.  Then a
    hybrid search with weights (1, 0) returns exactly the lists of dense
    retrieval, one per query.  (The collaborators return one list per query,
    so the two sides have the same number of lists; scores are such that
    [0 < 1], not [0 < 0], and [0.0 + x * 1 = x] for a score [x > 0].) *)
Theorem hybrid_one_zero_is_dense self (a : ANN R E) (queries : list str)
    (limit : Z) (d s : list (ranked R)) (n : nat) :
  ann self = Some a ->
  scoring self = Some sc ->
  dense self a queries limit = Ok d ->
  sparse self sc queries limit = Ok s ->
  List.length s = List.length d ->
  Forall (fun l => descending l /\ NoDup (map fst l) /\
                   (Z.of_nat (List.length l) <= limit)%Z) d ->
  exists n', search self queries limit (WSeq [one; zero]) n = Ok (Some d, n').
Proof.
  intros Hann Hsc Hdense Hsparse Hlen Hd.
  assert (Hd' : Forall (fun l => descending l /\ NoDup (map fst l) /\
                   (Z.of_nat (List.length l) <= limit)%Z /\ scores_positive l) d).
  { pose proof Hdense as Hpos. apply dense_scores_positive in Hpos.
    rewrite Forall_forall in *. intros l Hl.
    destruct (Hd l Hl) as (H1 & H2 & H3). auto. }
  unfold search, bind, lift, ret. rewrite Hann, Hsc, Hdense, Hsparse.
  destruct d as [|dl d].
  - destruct s; [|discriminate]. now exists n.
  - destruct s as [|sl s]; [discriminate|]. cbn [truthy andb].
    unfold hybrid, as_sequence.
    destruct (@mapM_fuse_one_zero limit (dl :: d) (sl :: s) n Hlen Hd') as [n' Hn'].
    rewrite Hn'. now exists n'.
Qed.

End ConvexDenseOnly.

(** ** No index configured *)

(** C8.  Without a dense index and without sparse scoring, a batch call
    raises nothing and returns one empty list per query, whatever the batch,
    the limit and the weights are. *)
Theorem call_without_index self (queries : list str) (limit : option Z)
    (weights : option (weights_arg R)) (n : nat) :
  ann self = None ->
  scoring self = None ->
  exists results,
    call self queries limit weights n = Ok (Results (Some results), n) /\
    List.length results = List.length queries /\
    Forall (fun l => l = []) results.
Proof.
  intros Hann Hsc. exists (repeat [] (List.length queries)).
  unfold call. rewrite Hann, Hsc. unfold ret.
  split; [reflexivity|]. split; [apply repeat_length|].
  apply Forall_forall. intros l Hl. now apply repeat_spec in Hl.
Qed.

(** ** Strings *)

Lemma isdigit_nonempty (s : str) : isdigit s = true -> nonempty s = true.
Proof. destruct s; [discriminate | reflexivity]. Qed.

Lemma nonempty_spec (s : str) : nonempty s = false <-> s = [].
Proof. destruct s; simpl; split; congruence. Qed.

Lemma split_empty : split [] = [].
Proof. reflexivity. Qed.

(** ** Loops that can raise *)

Lemma rfold_app (A S : Type) (f : S -> A -> result S) (xs ys : list A) (s : S) :
  rfold f (xs ++ ys) s = rbind (rfold f xs s) (rfold f ys).
Proof.
  revert s; induction xs as [|x xs IH]; intros s; simpl; [reflexivity|].
  destruct (f s x) as [s'|e]; cbn [rbind]; [apply IH | reflexivity].
Qed.

Lemma enumerate_from_app (A : Type) (xs ys : list A) :
  forall k,
    combine (seq k (List.length (xs ++ ys))) (xs ++ ys)
    = combine (seq k (List.length xs)) xs
      ++ combine (seq (k + List.length xs) (List.length ys)) ys.
Proof.
  induction xs as [|x xs IH]; intros k; simpl.
  - now rewrite Nat.add_0_r.
  - rewrite IH. now rewrite Nat.add_succ_r.
Qed.

(** ** Candidate count *)

Lemma maxl_app (l1 l2 : list Z) : maxl (l1 ++ l2) = Z.max (maxl l1) (maxl l2).
Proof.
  induction l1 as [|x l1 IH]; simpl.
  - assert (0 <= maxl l2)%Z; [|lia].
    induction l2; simpl; lia.
  - rewrite IH. lia.
Qed.

Lemma maxl_nonneg (l : list Z) : (0 <= maxl l)%Z.
Proof. induction l; simpl; lia. Qed.

Lemma largest_positive (c : Z) (cs : list Z) :
  (0 <= c)%Z -> fold_right Z.max c cs = maxl (c :: cs).
Proof. intros Hc. induction cs as [|x cs IH]; simpl in *; lia. Qed.

Lemma explicit_candidate_positive (params : list str) (c : Z) :
  explicit_candidate params = Some c -> (0 < c)%Z.
Proof.
  unfold explicit_candidate. destruct params as [|p0 [|p1 rest]]; try discriminate.
  destruct (isdigit p1); [|discriminate].
  destruct (int p1) as [v|]; [|discriminate].
  destruct (Z.ltb_spec 0 v); [|discriminate].
  intros Hc; inversion Hc; subst. assumption.
Qed.

Lemma explicit_candidates_positive (queries : list parsed) :
  Forall (fun c => (0 < c)%Z) (explicit_candidates queries).
Proof.
  apply Forall_forall. intros c Hc. unfold explicit_candidates in Hc.
  apply in_flat_map in Hc. destruct Hc as (q & _ & Hc).
  unfold query_candidates in Hc. destruct (p_similar q) as [clauses|]; [|destruct Hc].
  apply in_flat_map in Hc. destruct Hc as (params & _ & Hc).
  destruct (explicit_candidate params) as [c'|] eqn:He; [|destruct Hc].
  destruct Hc as [<-|[]]. eapply explicit_candidate_positive; eauto.
Qed.

Lemma getitem_head (A : Type) (x : A) (xs : list A) : getitem (x :: xs) 0 = Ok x.
Proof. reflexivity. Qed.

(** One similarity clause: the embeddings query is recorded, and the
    candidate count grows to the clause's explicit count if that is larger. *)
Lemma extract_params_run (x : nat) (equeries : list (nat * str)) (c : Z)
    (params : list str) :
  params_ok params -> (0 <= c)%Z ->
  extract_params x (equeries, c) params
  = Ok (equeries ++ [(x, hd [] params)], Z.max c (maxl (clause_candidates [params]))).
Proof.
  intros [Hne Hconv] Hc. destruct params as [|p0 rest]; [congruence|].
  unfold extract_params, clause_candidates, explicit_candidate.
  rewrite getitem_head. cbn [rbind hd flat_map app].
  destruct rest as [|p1 rest]; [simpl; do 2 f_equal; lia|].
  destruct (isdigit p1) eqn:Hd; [|simpl; do 2 f_equal; lia].
  destruct (int p1) as [v|] eqn:Hv.
  - destruct (Z.ltb_spec c v); destruct (Z.ltb_spec 0 v); simpl; do 2 f_equal; lia.
  - exfalso. exact (Hconv p0 p1 rest eq_refl Hd Hv).
Qed.

Lemma clause_candidates_cons (params : list str) (clauses : list (list str)) :
  clause_candidates (params :: clauses)
  = clause_candidates [params] ++ clause_candidates clauses.
Proof. unfold clause_candidates. simpl. now rewrite app_nil_r. Qed.

Lemma extract_clauses_run (x : nat) (clauses : list (list str)) :
  Forall params_ok clauses ->
  forall (equeries : list (nat * str)) (c : Z),
    (0 <= c)%Z ->
    rfold (extract_params x) clauses (equeries, c)
    = Ok (equeries ++ map (fun params => (x, hd [] params)) clauses,
          Z.max c (maxl (clause_candidates clauses))).
Proof.
  induction 1 as [|params clauses Hok _ IH]; intros equeries c Hc.
  - simpl. rewrite app_nil_r. do 2 f_equal. lia.
  - cbn [rfold]. rewrite extract_params_run by assumption. cbn [rbind].
    rewrite IH by lia.
    rewrite (clause_candidates_cons params clauses), maxl_app, <- app_assoc.
    simpl. do 2 f_equal. lia.
Qed.

Lemma extract_queries_run (queries : list parsed) :
  Forall clauses_have_query queries ->
  forall (k : nat) (equeries : list (nat * str)) (c : Z),
    (0 <= c)%Z ->
    rfold extract_query (combine (seq k (List.length queries)) queries) (equeries, c)
    = Ok (equeries ++
          flat_map (fun xq : nat * parsed =>
                      match p_similar (snd xq) with
                      | Some clauses => map (fun params => (fst xq, hd [] params)) clauses
                      | None => []
                      end)
                   (combine (seq k (List.length queries)) queries),
          Z.max c (maxl (explicit_candidates queries))).
Proof.
  induction 1 as [|q queries Hq _ IH]; intros k equeries c Hc.
  - simpl. rewrite app_nil_r. do 2 f_equal. lia.
  - cbn [List.length seq combine rfold extract_query flat_map fst snd].
    unfold explicit_candidates. cbn [flat_map]. fold (explicit_candidates queries).
    rewrite maxl_app. unfold query_candidates at 1.
    destruct (p_similar q) as [clauses|] eqn:Hsim.
    + rewrite extract_clauses_run by (auto using Hq). cbn [rbind].
      rewrite IH by lia. rewrite <- app_assoc. do 2 f_equal. lia.
    + cbn [rbind app]. rewrite IH by exact Hc. do 2 f_equal. simpl. lia.
Qed.

Lemma multitoken_spec (queries : list parsed) :
  multitoken queries = has_multitoken_filter queries.
Proof.
  unfold multitoken, has_multitoken_filter.
  induction queries as [|q queries IH]; simpl; [reflexivity|].
  rewrite IH. f_equal. destruct (p_where q) as [w|]; [|reflexivity].
  destruct w; reflexivity.
Qed.

(** What [extract] returns where it raises nothing. *)
Lemma extract_run (queries : list parsed) (limit : Z) :
  Forall clauses_have_query queries ->
  extract queries limit = Ok (spec_equeries queries, spec_candidates queries limit).
Proof.
  intros Hq. unfold extract, enumerate.
  rewrite extract_queries_run by (assumption || lia).
  cbn [rbind app]. fold (enumerate queries). fold (spec_equeries queries).
  do 2 f_equal.
  unfold spec_candidates. rewrite multitoken_spec.
  pose proof (explicit_candidates_positive queries) as Hpos.
  destruct (explicit_candidates queries) as [|c cs].
  - reflexivity.
  - inversion Hpos; subst.
    rewrite largest_positive by lia.
    destruct (Z.eqb_spec (Z.max 0 (maxl (c :: cs))) 0) as [H0|H0].
    + simpl in H0. lia.
    + pose proof (maxl_nonneg (c :: cs)). lia.
Qed.


(** ** Limit *)

Lemma limit_step_ok (c : Z) (q : parsed) :
  (0 <= c)%Z -> limit_clause_ok q -> limit_step c q = Ok (Z.max c (numeric_limit q)).
Proof.
  unfold limit_clause_ok, limit_step, numeric_limit. intros Hc Hq.
  destruct (p_limit q) as [s|]; [|simpl; f_equal; lia].
  destruct Hq as [->|[Hd Hv]]; [simpl; f_equal; lia|].
  cbn [limit_truthy]. rewrite Hd, (isdigit_nonempty _ Hd). cbn [andb].
  destruct (int s) as [n|]; [|congruence]. cbn [rbind limit_truthy].
  destruct (Z.eqb_spec n 0) as [H0|H0]; cbn [negb].
  - f_equal. lia.
  - destruct (Z.ltb_spec c n); f_equal; lia.
Qed.

Lemma limit_step_type_error (c : Z) (q : parsed) (s : str) :
  p_limit q = Some s -> s <> [] -> isdigit s = false ->
  limit_step c q = Raise TypeError.
Proof.
  intros Hl Hs Hd. unfold limit_step. rewrite Hl. cbn [limit_truthy].
  rewrite Hd, andb_false_r. cbn [rbind limit_truthy].
  destruct s; [contradiction | reflexivity].
Qed.

Lemma limit_step_value_error (c : Z) (q : parsed) (s : str) :
  p_limit q = Some s -> isdigit s = true -> int s = None ->
  limit_step c q = Raise ValueError.
Proof.
  intros Hl Hd Hv. unfold limit_step. rewrite Hl. cbn [limit_truthy].
  now rewrite Hd, (isdigit_nonempty _ Hd), Hv.
Qed.

Lemma rfold_limit_ok (queries : list parsed) :
  Forall limit_clause_ok queries ->
  forall c, (0 <= c)%Z ->
            rfold limit_step queries c = Ok (Z.max c (largest_limit queries)).
Proof.
  unfold largest_limit.
  induction 1 as [|q queries Hq _ IH]; intros c Hc; simpl.
  - f_equal. lia.
  - rewrite limit_step_ok by assumption. cbn [rbind]. rewrite IH by lia. f_equal. lia.
Qed.

(** When every limit clause is missing, empty or made of digits that [int]
    converts, [limit] returns the largest number found, and 0 when it finds
    none. *)
Lemma limit_ok (queries : list parsed) :
  Forall limit_clause_ok queries -> limit queries = Ok (largest_limit queries).
Proof.
  intros H. unfold limit. rewrite rfold_limit_ok by (assumption || lia).
  f_equal. unfold largest_limit.
  assert (0 <= fold_right Z.max 0 (map numeric_limit queries))%Z; [|lia].
  apply maxl_nonneg.
Qed.

(** The first limit clause [limit] cannot cope with decides how it ends.
    After queries whose clauses are missing, empty or digits that [int]
    converts, a clause that is neither empty nor passes [isdigit] makes
    [limit] raise [TypeError]. *)
Lemma limit_raises (good : list parsed) (q : parsed) (rest : list parsed) (s : str) :
  Forall limit_clause_ok good ->
  p_limit q = Some s -> s <> [] -> isdigit s = false ->
  limit (good ++ q :: rest) = Raise TypeError.
Proof.
  intros Hgood Hl Hs Hd. unfold limit.
  rewrite rfold_app, rfold_limit_ok by (assumption || lia).
  cbn [rbind rfold]. now rewrite limit_step_type_error with (s := s).
Qed.

(** After such queries, a clause that passes [isdigit] and that [int] does
    not convert (it holds a digit that is no decimal digit, or more digits
    than the interpreter converts) makes [limit] raise the [ValueError] of
    [int]. *)
Lemma limit_value_error (good : list parsed) (q : parsed) (rest : list parsed)
    (s : str) :
  Forall limit_clause_ok good ->
  p_limit q = Some s -> isdigit s = true -> int s = None ->
  limit (good ++ q :: rest) = Raise ValueError.
Proof.
  intros Hgood Hl Hd Hv. unfold limit.
  rewrite rfold_app, rfold_limit_ok by (assumption || lia).
  cbn [rbind rfold]. now rewrite limit_step_value_error with (s := s).
Qed.

(** ** Length of the result of a batch call *)

Lemma resolve_length self (results : list (list (Z * R))) (res : list (ranked R)) :
  resolve self results = Ok res -> List.length res = List.length results.
Proof.
  intros H. apply resolve_scores in H. symmetry. eapply Forall2_length; eauto.
Qed.

Lemma dense_length self (a : ANN R E) (queries : list str) (limit : Z)
    (res : list (ranked R)) :
  ann_contract self ->
  ann self = Some a -> dense self a queries limit = Ok res ->
  List.length res = List.length queries.
Proof.
  intros Hc Ha H. unfold dense in H. apply resolve_length in H.
  rewrite H. unfold positive. rewrite length_map. now apply Hc.
Qed.

Lemma sparse_length self sc (queries : list str) (limit : Z)
    (res : list (ranked R)) :
  scoring_contract self ->
  scoring self = Some sc -> sparse self sc queries limit = Ok res ->
  List.length res = List.length queries.
Proof.
  intros Hc Hs H. unfold sparse in H. apply resolve_length in H.
  rewrite H. now apply Hc.
Qed.

(** [search] returns one list per query, except that it returns [None] for
    an empty batch when only the dense index is there (and when there is no
    index at all). *)
Lemma search_length self (queries : list str) (limit : Z)
    (weights : weights_arg R) (n : nat) (out : option (list (ranked R))) (n' : nat) :
  ann_contract self -> scoring_contract self ->
  search self queries limit weights n = Ok (out, n') ->
  match out with
  | Some results => List.length results = List.length queries
  | None => scoring self = None /\ (ann self = None \/ queries = [])
  end.
Proof.
  intros Hca Hcs. unfold search, bind, lift, ret.
  destruct (ann self) as [a|] eqn:Ha.
  - destruct (dense self a queries limit) as [d|e] eqn:Hd; [|discriminate].
    pose proof Hd as Hdl. apply dense_length in Hdl; [|exact Hca|exact Ha].
    destruct (scoring self) as [sc|] eqn:Hs.
    + destruct (sparse self sc queries limit) as [s|e] eqn:Hsp; [|discriminate].
      pose proof Hsp as Hsl. apply sparse_length in Hsl; [|exact Hcs|exact Hs].
      destruct (truthy (Some d) && truthy (Some s)) eqn:Hboth.
      * destruct (hybrid sc weights limit d s n) as [[results n1]|e] eqn:Hh;
          [|discriminate].
        intros H; inversion H; subst. unfold hybrid in Hh.
        apply mapM_length in Hh. rewrite Hh, length_combine. lia.
      * intros H; inversion H; subst. now destruct d.
    + intros H; inversion H; subst. destruct d as [|dl d]; simpl.
      * split; [reflexivity|]. right. destruct queries; [reflexivity | discriminate].
      * exact Hdl.
  - destruct (scoring self) as [sc|] eqn:Hs.
    + destruct (sparse self sc queries limit) as [s|e] eqn:Hsp; [|discriminate].
      pose proof Hsp as Hsl. apply sparse_length in Hsl; [|exact Hcs|exact Hs].
      intros H; inversion H; subst. exact Hsl.
    + intros H; inversion H; subst. auto.
Qed.

(** [dbsearch] returns one row per query. *)
Lemma dbsearch_length self (db : Database R Row) (queries : list str) (limit0 : Z)
    (weights : weights_arg R) (n : nat) (rows : list Row) (n' : nat) :
  dbsearch self db queries limit0 weights n = Ok (rows, n') ->
  List.length rows = List.length queries.
Proof.
  unfold dbsearch, bind, lift. intros H.
  destruct (limit (parse self db queries)) as [ql|e]; [|discriminate].
  destruct (extract (parse self db queries) (Z.max limit0 ql)) as [[equeries c]|e];
    [|discriminate].
  match type of H with
  | match ?found n with _ => _ end = _ =>
      destruct (found n) as [[f n1]|e]; [|discriminate]
  end.
  apply mapM_length in H. rewrite H, enumerate_length.
  unfold parse. apply length_map.
Qed.

(** A batch call that returns has returned one result per query, or [None]:
    the latter for the empty batch, when a dense index is configured and
    sparse scoring is not. *)
Lemma call_length self (queries : list str) (limit : option Z)
    (weights : option (weights_arg R)) (n : nat) (out : output R Row) (n' : nat) :
  ann_contract self -> scoring_contract self ->
  call self queries limit weights n = Ok (out, n') ->
  match out with
  | Rows rows => List.length rows = List.length queries
  | Results (Some results) => List.length results = List.length queries
  | Results None => queries = [] /\ scoring self = None /\ ann self <> None
  end.
Proof.
  intros Hann Hsc. unfold call.
  set (lim := match limit with Some l => if (l =? 0)%Z then 3%Z else l | None => 3%Z end).
  set (ws := match weights with Some w => w | None => WNumber half end).
  assert (Hsearch : forall r m, search self queries lim ws n = Ok (r, m) ->
            (ann self <> None \/ scoring self <> None) ->
            match r with
            | Some results => List.length results = List.length queries
            | None => queries = [] /\ scoring self = None /\ ann self <> None
            end).
  { intros r m Hr Hcfg. pose proof Hr as Hlen.
    apply search_length in Hlen; [|exact Hann|exact Hsc].
    destruct r as [results|]; [exact Hlen|].
    destruct Hlen as [Hs [Ha|Hq]].
    - destruct Hcfg; contradiction.
    - repeat split; try assumption. destruct Hcfg; [assumption | contradiction]. }
  assert (Hrun : (r <- search self queries lim ws;; ret (Results (Row:=Row) r)) n
                 = Ok (out, n') ->
                 (ann self <> None \/ scoring self <> None) ->
                 match out with
                 | Rows rows => List.length rows = List.length queries
                 | Results (Some results) => List.length results = List.length queries
                 | Results None => queries = [] /\ scoring self = None /\ ann self <> None
                 end).
  { unfold bind, ret. intros H Hcfg.
    destruct (search self queries lim ws n) as [[r m]|e] eqn:Hr; [|discriminate].
    inversion H; subst. eapply Hsearch; eauto. }
  assert (Hdb : forall db, (rows <- dbsearch self db queries lim ws;; ret (Rows (R:=R) rows)) n
                 = Ok (out, n') ->
                 match out with
                 | Rows rows => List.length rows = List.length queries
                 | Results (Some results) => List.length results = List.length queries
                 | Results None => queries = [] /\ scoring self = None /\ ann self <> None
                 end).
  { unfold bind, ret. intros db H.
    destruct (dbsearch self db queries lim ws n) as [[rows m]|e] eqn:Hr; [|discriminate].
    inversion H; subst. eapply dbsearch_length; eauto. }
  destruct (ann self) as [a|] eqn:Ha; destruct (scoring self) as [sc|] eqn:Hs.
  4:{ unfold ret. intros H; inversion H; subst. apply repeat_length. }
  all: destruct (database self) as [db|]; [destruct (indexids self); cbn [negb]|];
    intros H;
    first [ apply (Hdb _ H) | apply (Hrun H); (left + right); discriminate ].
Qed.

(* ------------------------------------------------------------------ *)
(** ** Identifier resolution, in detail *)

Lemma getitem_in_table (A : Type) (lookup : list A) (i : Z) :
  in_table lookup i -> exists a, getitem lookup i = Ok a.
Proof.
  unfold in_table, getitem. intros Hi.
  destruct (Z.ltb_spec i 0).
  - destruct (Z.ltb_spec (i + Z.of_nat (List.length lookup)) 0); [lia|].
    destruct (nth_error lookup (Z.to_nat (i + Z.of_nat (List.length lookup))))
      as [a|] eqn:Hn; [eauto|].
    apply nth_error_None in Hn. lia.
  - destruct (Z.ltb_spec i 0); [lia|].
    destruct (nth_error lookup (Z.to_nat i)) as [a|] eqn:Hn; [eauto|].
    apply nth_error_None in Hn. lia.
Qed.

Lemma getitem_not_in_table (A : Type) (lookup : list A) (i : Z) :
  ~ in_table lookup i -> getitem lookup i = Raise IndexError.
Proof.
  unfold in_table, getitem. intros Hi.
  destruct (Z.ltb_spec i 0).
  - destruct (Z.ltb_spec (i + Z.of_nat (List.length lookup)) 0); [reflexivity|lia].
  - destruct (Z.ltb_spec i 0); [lia|].
    destruct (nth_error lookup (Z.to_nat i)) as [a|] eqn:Hn; [|reflexivity].
    assert (Z.to_nat i < List.length lookup)%nat; [|lia].
    apply nth_error_Some. congruence.
Qed.

Lemma getitem_error (A : Type) (xs : list A) (i : Z) (e : pyerror) :
  getitem xs i = Raise e -> e = IndexError.
Proof.
  unfold getitem.
  destruct ((if (i <? 0)%Z then (i + Z.of_nat (List.length xs))%Z else i) <? 0)%Z;
    [congruence|].
  destruct (nth_error xs _); [discriminate | congruence].
Qed.

Lemma rmap_ok (A B : Type) (f : A -> result B) (xs : list A) :
  Forall (fun x => exists y, f x = Ok y) xs -> exists ys, rmap f xs = Ok ys.
Proof.
  induction 1 as [|x xs [y Hy] _ [ys IH]]; simpl; [eauto|].
  rewrite Hy, IH. simpl. eauto.
Qed.

Lemma rmap_raise (A B : Type) (f : A -> result B) (e : pyerror) (xs : list A) :
  (forall x e', f x = Raise e' -> e' = e) ->
  Exists (fun x => f x = Raise e) xs -> rmap f xs = Raise e.
Proof.
  intros Honly. induction 1 as [x xs Hx|x xs _ IH]; simpl.
  - now rewrite Hx.
  - destruct (f x) as [y|e'] eqn:Hx; simpl.
    + now rewrite IH.
    + now rewrite (Honly _ _ Hx).
Qed.

(** The body of the comprehension in [resolve]. *)
Lemma resolve_hit_ok (lookup : list pyid) (hit : Z * R) :
  in_table lookup (fst hit) ->
  exists entry,
    (let '(i, score) := hit in uid <-! getitem lookup i ;; Ok (uid, score)) = Ok entry.
Proof.
  destruct hit as [i score]. simpl. intros Hi.
  destruct (getitem_in_table Hi) as [uid Hu]. rewrite Hu. simpl. eauto.
Qed.

Lemma resolve_hit_raise (lookup : list pyid) (hit : Z * R) :
  ~ in_table lookup (fst hit) ->
  (let '(i, score) := hit in uid <-! getitem lookup i ;; Ok (uid, score))
  = Raise IndexError.
Proof.
  destruct hit as [i score]. simpl. intros Hi.
  now rewrite getitem_not_in_table.
Qed.

Lemma resolve_hit_error (lookup : list pyid) (hit : Z * R) (e : pyerror) :
  (let '(i, score) := hit in uid <-! getitem lookup i ;; Ok (uid, score)) = Raise e ->
  e = IndexError.
Proof.
  destruct hit as [i score].
  destruct (getitem lookup i) as [uid|e'] eqn:Hg; simpl; [discriminate|].
  intros H; inversion H; subst. eapply getitem_error; eauto.
Qed.

Lemma resolve_hit_inv (lookup : list pyid) (hit : Z * R) (entry : pyid * R) :
  (let '(i, score) := hit in uid <-! getitem lookup i ;; Ok (uid, score)) = Ok entry ->
  getitem lookup (fst hit) = Ok (fst entry) /\ snd entry = snd hit.
Proof.
  destruct hit as [i score].
  destruct (getitem lookup i) as [uid|e'] eqn:Hg; simpl; [|discriminate].
  intros H; inversion H; subst. auto.
Qed.

(** With a lookup table, and unless index positions were asked for,
    [resolve] returns every hit under the identifier the table holds at its
    position, with its score and at its place, provided every position is
    one the table accepts; a single position outside the table makes it
    raise [IndexError]. *)
Theorem resolve_lookup self (lookup : list pyid) (results : list (list (Z * R))) :
  config_ids self = Some lookup ->
  indexids self = false ->
  (Forall (Forall (fun hit => in_table lookup (fst hit))) results ->
   exists res,
     resolve self results = Ok res /\
     Forall2 (Forall2 (fun hit entry =>
                         getitem lookup (fst hit) = Ok (fst entry) /\
                         snd entry = snd hit))
             results res) /\
  (Exists (Exists (fun hit => ~ in_table lookup (fst hit))) results ->
   resolve self results = Raise IndexError).
Proof.
  intros Hids Hidx. unfold resolve. rewrite Hids, Hidx. cbn [negb]. split.
  - intros Hall.
    destruct (@rmap_ok _ _
                (rmap (fun '(i, score) => uid <-! getitem lookup i ;; Ok (uid, score)))
                results) as [res Hres].
    { eapply Forall_impl; [|exact Hall]. intros r Hr. apply rmap_ok.
      eapply Forall_impl; [|exact Hr]. intros hit. apply resolve_hit_ok. }
    exists res. split; [exact Hres|].
    apply rmap_Forall2 in Hres.
    eapply Forall2_impl; [|exact Hres]. intros r l Hl.
    apply rmap_Forall2 in Hl.
    eapply Forall2_impl; [|exact Hl]. intros hit entry. apply resolve_hit_inv.
  - intros Hbad. apply rmap_raise.
    + intros r e Hr. clear -Hr. induction r as [|hit r IH]; simpl in Hr; [discriminate|].
      match type of Hr with
      | rbind ?c _ = _ => destruct c as [entry|e'] eqn:Hh; simpl in Hr
      end.
      * destruct (rmap _ r) as [l|e'] eqn:Hl; simpl in Hr; [discriminate|].
        inversion Hr; subst. now apply IH.
      * inversion Hr; subst. eapply resolve_hit_error; eauto.
    + eapply Exists_impl; [|exact Hbad]. intros r Hr. apply rmap_raise.
      * intros hit e. apply resolve_hit_error.
      * eapply Exists_impl; [|exact Hr]. intros hit. apply resolve_hit_raise.
Qed.

(** ** Single-sided searches *)

Lemma Forall2_map_snd (A B : Type) (rs : list (list (A * R))) (ls : list (list (B * R))) :
  Forall2 (fun raw l => map snd l = map snd raw) rs ls ->
  map (map snd) ls = map (map snd) rs.
Proof. induction 1; simpl; congruence. Qed.

Lemma filter_map_snd (A : Type) (p : R -> bool) (hits : list (A * R)) :
  map snd (filter (fun '(_, score) => p score) hits) = filter p (map snd hits).
Proof.
  induction hits as [|[i score] hits IH]; simpl; [reflexivity|].
  destruct (p score); simpl; now rewrite IH.
Qed.

(** [dense] loses nothing but the hits that are not above 0: query by query,
    the scores it returns are the scores above 0 that the index found, in
    the order the index gave them. *)
Theorem dense_keeps_positive_hits self (a : ANN R E) (queries : list str)
    (limit : Z) (res : list (ranked R)) :
  dense self a queries limit = Ok res ->
  map (map snd) res
  = map (fun hits => filter (ltb zero) (map snd hits))
        (ann_search a (batchtransform self queries) limit).
Proof.
  unfold dense. intros H. apply resolve_scores, Forall2_map_snd in H.
  rewrite H. unfold positive. rewrite map_map. apply map_ext.
  intros hits. apply filter_map_snd.
Qed.

(** With sparse scoring alone, [search] returns what [sparse] returns, empty
    batch included, without consulting the normalization flag; and [sparse]
    filters nothing: the scores are those of the scoring, whatever their
    sign. *)
Theorem search_sparse_only self sc (queries : list str) (limit : Z)
    (weights : weights_arg R) (n : nat) (s : list (ranked R)) :
  ann self = None ->
  scoring self = Some sc ->
  sparse self sc queries limit = Ok s ->
  search self queries limit weights n = Ok (Some s, n) /\
  map (map snd) s = map (map snd) (batchsearch sc queries limit).
Proof.
  intros Hann Hsc Hs. split.
  - unfold search, bind, lift, ret. now rewrite Hann, Hsc, Hs.
  - unfold sparse in Hs. now apply resolve_scores, Forall2_map_snd in Hs.
Qed.

(* ------------------------------------------------------------------ *)
(** ** The fused lists, in detail *)

Lemma enumerate_from_snd (A : Type) (xs : list A) :
  forall k, map snd (combine (seq k (List.length xs)) xs) = xs.
Proof. induction xs as [|x xs IH]; intros k; simpl; [reflexivity|]. now rewrite IH. Qed.

Lemma enumerate_snd (A : Type) (xs : list A) : map snd (enumerate xs) = xs.
Proof. apply enumerate_from_snd. Qed.

Lemma dict_set_In uid (x : R) uids (u : pyid) :
  In u (map fst (dict_set uid x uids)) <-> In u (map fst uids) \/ u = uid.
Proof.
  rewrite dict_set_keys. destruct (dict_mem uid uids) eqn:Hm.
  - apply dict_mem_In in Hm. split; [tauto|]. intros [H|H]; [exact H | now subst].
  - rewrite in_app_iff. simpl. intuition.
Qed.

Lemma visit_keys sc w uids (entry : nat * (pyid * R)) (n : nat) uids' (n' : nat) :
  visit sc w uids entry n = Ok (uids', n') ->
  forall u, In u (map fst uids') <-> In u (map fst uids) \/ u = fst (snd entry).
Proof.
  destruct entry as [r [uid score]]. rewrite visit_run. intros H u.
  inversion H; subst. rewrite dict_set_In. simpl.
  destruct (dict_mem uid uids); [tauto|]. rewrite dict_set_In. tauto.
Qed.

Lemma foldM_visit_keys sc w (es : list (nat * (pyid * R))) :
  forall uids n uids' n',
    foldM (visit sc w) es uids n = Ok (uids', n') ->
    forall u, In u (map fst uids') <->
              In u (map fst uids) \/ In u (map fst (map snd es)).
Proof.
  induction es as [|entry es IH]; intros uids n uids' n' H u; cbn [foldM] in H.
  - unfold ret in H. inversion H; subst. simpl. tauto.
  - unfold bind in H.
    destruct (visit sc w uids entry n) as [[uids1 n1]|e] eqn:Hv; [|discriminate].
    apply IH with (u := u) in H. apply visit_keys with (u := u) in Hv.
    rewrite H, Hv. simpl. intuition (subst; auto).
Qed.

Lemma side_keys sc (weights : list R) uids (v : nat) scores (n : nat) uids' (n' : nat) :
  side sc weights uids (v, scores) n = Ok (uids', n') ->
  exists w,
    getitem weights (Z.of_nat v) = Ok w /\
    forall u, In u (map fst uids') <->
              In u (map fst uids) \/ (ltb zero w = true /\ In u (map fst scores)).
Proof.
  unfold side, bind, lift. intros H.
  destruct (getitem weights (Z.of_nat v)) as [w|e]; [|discriminate].
  exists w. split; [reflexivity|]. intros u.
  apply foldM_visit_keys with (u := u) in H. rewrite H, enumerate_snd.
  destruct (ltb zero w); simpl; intuition discriminate.
Qed.

(** The dictionary behind a fused list: its keys are distinct, and they are
    the identifiers of the sides whose weight is above 0. *)
Lemma fuse_keys sc (weights : list R) (limit : Z) (dl sl : ranked R) (n : nat)
    (l : ranked R) (n' : nat) :
  fuse sc weights limit (dl, sl) n = Ok (l, n') ->
  exists uids w0 w1,
    getitem weights (Z.of_nat 0) = Ok w0 /\
    getitem weights (Z.of_nat 1) = Ok w1 /\
    NoDup (map fst uids) /\
    l = slice_to limit (sorted_desc ltb uids) /\
    forall u, In u (map fst uids) <->
              (ltb zero w0 = true /\ In u (map fst dl)) \/
              (ltb zero w1 = true /\ In u (map fst sl)).
Proof.
  rewrite fuse_two_sides. unfold bind, ret. intros H.
  destruct (side sc weights [] (0, dl) n) as [[u0 n0]|e] eqn:H0; [|discriminate].
  destruct (side sc weights u0 (1, sl) n0) as [[u1 n1]|e] eqn:H1; [|discriminate].
  inversion H; subst.
  assert (Hnd0 : NoDup (map fst u0)) by (eapply side_NoDup; [|exact H0]; constructor).
  assert (Hnd1 : NoDup (map fst u1)) by (eapply side_NoDup; [|exact H1]; exact Hnd0).
  apply side_keys in H0. destruct H0 as (w0 & Hw0 & Hk0).
  apply side_keys in H1. destruct H1 as (w1 & Hw1 & Hk1).
  exists u1, w0, w1. repeat split; try assumption.
  - intros Hu. apply Hk1 in Hu. rewrite Hk0 in Hu. simpl in Hu. tauto.
  - intros Hu. apply Hk1. rewrite Hk0. simpl. tauto.
Qed.

Lemma slice_sorted_In (limit : Z) uids (u : pyid) :
  In u (map fst (slice_to limit (sorted_desc ltb uids))) -> In u (map fst uids).
Proof.
  destruct (slice_to_firstn limit (sorted_desc ltb uids)) as [k ->].
  rewrite <- firstn_map. intros H.
  assert (H' : In u (map fst (sorted_desc ltb uids))).
  { rewrite <- (firstn_skipn k (map fst (sorted_desc ltb uids))).
    apply in_or_app. now left. }
  eapply Permutation_in; [|exact H'].
  apply Permutation_map, sorted_desc_perm.
Qed.

Lemma mapM_Forall2 (A B : Type) (f : A -> M B) (P : B -> A -> Prop) :
  (forall x n y n', f x n = Ok (y, n') -> P y x) ->
  forall xs n ys n', mapM f xs n = Ok (ys, n') -> Forall2 P ys xs.
Proof.
  intros Hf xs; induction xs as [|x xs IH]; intros n ys n' H; simpl in H.
  - inversion H; constructor.
  - unfold bind, ret in H.
    destruct (f x n) as [[y n1]|e] eqn:Hx; [|discriminate].
    destruct (mapM f xs n1) as [[ys1 n2]|e] eqn:Hxs; [|discriminate].
    inversion H; subst. constructor; eauto.
Qed.

Lemma hybrid_ids_incl sc (weights : weights_arg R) (limit : Z)
    (dres sres : list (ranked R)) (n : nat) (results : list (ranked R)) (n' : nat) :
  hybrid sc weights limit dres sres n = Ok (results, n') ->
  Forall2 (fun fused vectors =>
             incl (map fst fused) (map fst (fst vectors) ++ map fst (snd vectors)))
          results (combine dres sres).
Proof.
  unfold hybrid. apply mapM_Forall2.
  intros [dl sl] m l m' Hfuse u Hu.
  apply fuse_keys in Hfuse.
  destruct Hfuse as (uids & w0 & w1 & _ & _ & _ & -> & Hkeys).
  apply slice_sorted_In, Hkeys in Hu. rewrite in_app_iff. simpl. tauto.
Qed.

(** A hybrid fusion invents no identifier: whatever it returns for a query
    occurs in the dense or in the sparse list of that query. *)
Theorem hybrid_identifiers_from_inputs sc (weights : weights_arg R) (limit : Z)
    (dres sres : list (ranked R)) (n : nat) (results : list (ranked R)) (n' : nat) :
  hybrid sc weights limit dres sres n = Ok (results, n') ->
  Forall2 (fun fused vectors =>
             incl (map fst fused) (map fst (fst vectors) ++ map fst (snd vectors)))
          results (combine dres sres).
Proof.
  unfold hybrid. apply mapM_Forall2.
  intros [dl sl] m l m' Hfuse u Hu.
  apply fuse_keys in Hfuse.
  destruct Hfuse as (uids & w0 & w1 & _ & _ & _ & -> & Hkeys).
  apply slice_sorted_In, Hkeys in Hu. rewrite in_app_iff. simpl. tauto.
Qed.

(** Where the limit leaves room for both lists of a query, a hybrid fusion
    drops nothing: every identifier of a side whose weight is above 0 is in
    the fused list of that query. *)
Theorem hybrid_keeps_visited_identifiers sc (weights : weights_arg R) (limit : Z)
    (dres sres : list (ranked R)) (w0 w1 : R) (rest : list R) (n : nat)
    (results : list (ranked R)) (n' : nat) :
  as_sequence weights = w0 :: w1 :: rest ->
  hybrid sc weights limit dres sres n = Ok (results, n') ->
  Forall2 (fun fused vectors =>
             (Z.of_nat (List.length (fst vectors) + List.length (snd vectors))
              <= limit)%Z ->
             forall u,
               (ltb zero w0 = true /\ In u (map fst (fst vectors))) \/
               (ltb zero w1 = true /\ In u (map fst (snd vectors))) ->
               In u (map fst fused))
          results (combine dres sres).
Proof.
  intros Hw. unfold hybrid. rewrite Hw. apply mapM_Forall2.
  intros [dl sl] m l m' Hfuse Hroom u Hu. cbn [fst snd] in *.
  apply fuse_keys in Hfuse.
  destruct Hfuse as (uids & w0' & w1' & Hw0 & Hw1 & Hnd & -> & Hkeys).
  rewrite getitem_0 in Hw0. rewrite getitem_1 in Hw1.
  inversion Hw0; inversion Hw1; subst w0' w1'.
  assert (Hlen : List.length uids <= List.length dl + List.length sl).
  { rewrite <- (length_map fst uids), <- (length_map fst dl), <- (length_map fst sl),
      <- length_app.
    apply NoDup_incl_length; [exact Hnd|].
    intros k Hk. apply Hkeys in Hk. rewrite in_app_iff. tauto. }
  rewrite slice_to_all.
  - eapply Permutation_in.
    + apply Permutation_map, Permutation_sym, sorted_desc_perm.
    + now apply Hkeys.
  - rewrite (Permutation_length (sorted_desc_perm uids)). lia.
Qed.

(** A hybrid fusion pairs the dense and the sparse lists position by
    position and stops at the shorter of the two: it returns as many lists
    as the shorter has. *)
Theorem hybrid_length sc (weights : weights_arg R) (limit : Z)
    (dres sres : list (ranked R)) (n : nat) (results : list (ranked R)) (n' : nat) :
  hybrid sc weights limit dres sres n = Ok (results, n') ->
  List.length results = Nat.min (List.length dres) (List.length sres).
Proof.
  unfold hybrid. intros H. apply mapM_length in H. now rewrite H, length_combine.
Qed.

(** *** Order of a fused list *)

Section Descending.
(** [<] on scores never holds both ways. *)
Hypothesis ltb_asym : forall a b : R, ltb a b = true -> ltb b a = false.

Lemma insert_desc_descending (x : pyid * R) (l : ranked R) :
  descending l -> descending (insert_desc ltb x l).
Proof.
  unfold descending. induction 1 as [|y l Hs IH Hd]; simpl.
  - repeat constructor.
  - destruct (ltb (snd x) (snd y)) eqn:Hxy.
    + constructor; [exact IH|].
      destruct Hd as [|z l' Hyz]; simpl.
      * constructor. now apply ltb_asym.
      * destruct (ltb (snd x) (snd z)); constructor; [exact Hyz | now apply ltb_asym].
    + repeat constructor; assumption.
Qed.

Lemma sorted_desc_is_descending (l : ranked R) : descending (sorted_desc ltb l).
Proof.
  induction l as [|x l IH]; simpl; [constructor|].
  now apply insert_desc_descending.
Qed.

Lemma firstn_descending (k : nat) (l : ranked R) : descending l -> descending (firstn k l).
Proof.
  unfold descending. revert k. induction l as [|x l IH]; intros k Hs.
  - now rewrite firstn_nil.
  - destruct k as [|k]; simpl; [constructor|].
    inversion Hs as [|? ? Hs' Hd]; subst. constructor; [now apply IH|].
    destruct Hd as [|y l' Hxy]; [now rewrite firstn_nil|].
    destruct k; simpl; constructor. exact Hxy.
Qed.

(** Every list a hybrid fusion returns is in decreasing order of fused
    score: no entry has a smaller score than the entry after it. *)
Theorem hybrid_results_descending sc (weights : weights_arg R) (limit : Z)
    (dres sres : list (ranked R)) (n : nat) (results : list (ranked R)) (n' : nat) :
  hybrid sc weights limit dres sres n = Ok (results, n') ->
  Forall (@descending R _) results.
Proof.
  unfold hybrid. apply mapM_Forall.
  intros vectors m l m' Hfuse.
  apply fuse_inv in Hfuse. destruct Hfuse as (uids & _ & ->).
  destruct (slice_to_firstn limit (sorted_desc ltb uids)) as [k ->].
  apply firstn_descending, sorted_desc_is_descending.
Qed.

End Descending.

(** *** Weights *)

(** A sequence of fewer than two weights makes a hybrid fusion over at
    least one query raise [IndexError]: the missing weight is looked up
    when its side is reached. *)
Theorem hybrid_short_weights sc (weights : weights_arg R) (limit : Z)
    (dres sres : list (ranked R)) (n : nat) :
  (List.length (as_sequence weights) < 2)%nat ->
  dres <> [] -> sres <> [] ->
  hybrid sc weights limit dres sres n = Raise IndexError.
Proof.
  intros Hshort Hd Hs. unfold hybrid.
  destruct dres as [|dl dres]; [congruence|].
  destruct sres as [|sl sres]; [congruence|].
  cbn [combine mapM]. unfold bind at 1. rewrite fuse_two_sides. unfold bind.
  destruct (as_sequence weights) as [|w0 [|w1 rest]]; [| |simpl in Hshort; lia].
  - reflexivity.
  - destruct (side_count sc [w0] [] 0 dl n (getitem_0 w0 _)) as [u0 H0].
    rewrite H0. reflexivity.
Qed.


(** *** Weights (0, 1) under normalized scores *)

Section ConvexSparseOnly.
Variable sc : Scoring R.
Hypothesis normalized : forall k, isnormalized sc k = true.
Hypothesis one_positive : ltb zero one = true.
Hypothesis zero_not_positive : ltb zero zero = false.

Lemma foldM_visit_append (l : ranked R) :
  forall (k : nat) uids (n : nat),
    NoDup (map fst l) ->
    (forall u, In u (map fst l) -> ~ In u (map fst uids)) ->
    kept_by_one l ->
    foldM (visit sc one) (combine (seq k (List.length l)) l) uids n
    = Ok (uids ++ l, n + List.length l).
Proof.
  induction l as [|[uid score] l IH]; intros k uids n Hnd Hfresh Hkept;
    cbn [List.length seq combine foldM].
  - unfold ret. now rewrite app_nil_r, Nat.add_0_r.
  - simpl in Hnd. inversion Hnd as [|? ? Hnotin Hnd']; subst.
    inversion Hkept as [|? ? Hscore Hkept']; subst. cbn [snd] in Hscore.
    assert (Hm : dict_mem uid uids = false).
    { apply dict_mem_false_In, Hfresh. now left. }
    unfold bind. rewrite visit_run, Hm, accumulated_absent, normalized by exact Hm.
    unfold contribution. rewrite Hscore.
    rewrite (@dict_set_fresh uid zero uids Hm), dict_set_last by exact Hm.
    rewrite IH; [| exact Hnd' | | exact Hkept'].
    + rewrite <- app_assoc. simpl. now rewrite Nat.add_succ_r.
    + intros u Hu. rewrite map_app, in_app_iff. simpl.
      intros [Hin|[<-|[]]]; [|contradiction].
      apply (Hfresh u); [now right | exact Hin].
Qed.

Lemma fuse_zero_one (limit : Z) (dl sl : ranked R) (n : nat) :
  descending sl -> NoDup (map fst sl) -> (Z.of_nat (List.length sl) <= limit)%Z ->
  kept_by_one sl ->
  fuse sc [zero; one] limit (dl, sl) n = Ok (sl, n + List.length sl).
Proof.
  intros Hdesc Hnd Hlen Hkept. rewrite fuse_two_sides. unfold bind.
  rewrite side_run with (w := zero) by reflexivity. rewrite zero_not_positive.
  cbn [enumerate List.length seq combine foldM]. unfold ret at 1.
  rewrite side_run with (w := one) by reflexivity. rewrite one_positive.
  unfold enumerate. rewrite foldM_visit_append by (auto; intros ? ? []).
  cbn [app]. unfold ret. now rewrite (sorted_desc_descending Hdesc), slice_to_all.
Qed.

Lemma mapM_fuse_zero_one (limit : Z) (s : list (ranked R)) :
  forall (d : list (ranked R)) (n : nat),
    List.length d = List.length s ->
    Forall (fun l => descending l /\ NoDup (map fst l) /\
                     (Z.of_nat (List.length l) <= limit)%Z) s ->
    Forall (@kept_by_one R ops) s ->
    exists n', mapM (fuse sc [zero; one] limit) (combine d s) n = Ok (s, n').
Proof.
  induction s as [|sl s IH]; intros d n Hlen Hs Hkept.
  - exists n. destruct d; reflexivity.
  - destruct d as [|dl d]; [discriminate|]. simpl in Hlen.
    inversion Hs as [|? ? (Hdesc & Hnd & Hk) Hs']; subst.
    inversion Hkept as [|? ? Hkept1 Hkept']; subst.
    cbn [combine mapM]. unfold bind. rewrite fuse_zero_one by assumption.
    destruct (IH d (n + List.length sl)) as [n' Hn']; [lia | exact Hs' | exact Hkept' |].
    rewrite Hn'. now exists n'.
Qed.

(** Weights (0, 1) force a sparse-only answer from a hybrid index: when the
    scoring reports normalized scores and each of its lists is in decreasing
    order of score, has pairwise distinct identifiers and at most [limit]
    entries, and no score is changed by [0.0 + score * 1] (in binary64: no
    score is [-0.0]), [search] returns exactly the lists of [sparse].
    (Both collaborators return one list per query; scores are such that
    [0 < 1] and not [0 < 0].) *)
Theorem search_zero_one_is_sparse self (a : ANN R E) (queries : list str)
    (limit : Z) (d s : list (ranked R)) (n : nat) :
  ann self = Some a ->
  scoring self = Some sc ->
  dense self a queries limit = Ok d ->
  sparse self sc queries limit = Ok s ->
  List.length d = List.length s ->
  Forall (fun l => descending l /\ NoDup (map fst l) /\
                   (Z.of_nat (List.length l) <= limit)%Z) s ->
  Forall (@kept_by_one R ops) s ->
  exists n', search self queries limit (WSeq [zero; one]) n = Ok (Some s, n').
Proof.
  intros Hann Hsc Hdense Hsparse Hlen Hs Hkept.
  unfold search, bind, lift, ret. rewrite Hann, Hsc, Hdense, Hsparse.
  destruct s as [|sl s].
  - destruct d; [|discriminate]. now exists n.
  - destruct d as [|dl d]; [discriminate|]. cbn [truthy andb].
    unfold hybrid, as_sequence.
    destruct (@mapM_fuse_zero_one limit (sl :: s) (dl :: d) n Hlen Hs Hkept)
      as [n' Hn'].
    rewrite Hn'. now exists n'.
Qed.

End ConvexSparseOnly.


(* ------------------------------------------------------------------ *)
(** ** Extraction of the embeddings queries *)

(** [extract] lists the embeddings queries of the batch query by query and,
    within a query, clause by clause: each is the first argument of its
    similarity clause, paired with the index of the query it comes from. *)
Theorem extract_queries_in_order (queries : list parsed) (limit : Z) :
  Forall clauses_have_query queries ->
  exists candidates, extract queries limit = Ok (spec_equeries queries, candidates).
Proof.
  intros Hq. exists (spec_candidates queries limit). now apply extract_run.
Qed.

(** [extract] stops at the first clause it cannot read, with that clause's
    error. *)
Lemma extract_first_offender (good : list parsed) (q : parsed) (rest : list parsed)
    (cgood : list (list str)) (bad : list str) (crest : list (list str))
    (limit : Z) (e : pyerror) :
  Forall clauses_have_query good ->
  p_similar q = Some (cgood ++ bad :: crest) ->
  Forall params_ok cgood ->
  (forall x st, extract_params x st bad = Raise e) ->
  extract (good ++ q :: rest) limit = Raise e.
Proof.
  intros Hgood Hsim Hcgood Hbad. unfold extract, enumerate.
  rewrite enumerate_from_app, rfold_app, extract_queries_run by (assumption || lia).
  cbn [rbind List.length seq combine rfold].
  unfold extract_query at 1. cbn [fst snd]. rewrite Hsim.
  rewrite rfold_app, extract_clauses_run by (assumption || lia).
  cbn [rbind rfold]. now rewrite Hbad.
Qed.

Lemma extract_params_empty (x : nat) (st : list (nat * str) * Z) :
  extract_params x st [] = Raise IndexError.
Proof. destruct st. reflexivity. Qed.

Lemma extract_params_not_decimal (x : nat) (st : list (nat * str) * Z)
    (p0 p1 : str) (more : list str) :
  isdigit p1 = true -> int p1 = None ->
  extract_params x st (p0 :: p1 :: more) = Raise ValueError.
Proof.
  intros Hd Hv. destruct st. unfold extract_params.
  rewrite getitem_head. cbn [rbind]. now rewrite Hd, Hv.
Qed.

(** The first clause [extract] cannot read decides how it ends.  After
    queries and clauses it reads without raising, a similarity clause
    without arguments makes it raise [IndexError]. *)
Theorem extract_empty_clause_raises (good : list parsed) (q : parsed)
    (rest : list parsed) (cgood crest : list (list str)) (limit : Z) :
  Forall clauses_have_query good ->
  p_similar q = Some (cgood ++ [] :: crest) ->
  Forall params_ok cgood ->
  extract (good ++ q :: rest) limit = Raise IndexError.
Proof.
  intros Hgood Hsim Hcgood.
  apply extract_first_offender with (q := q) (cgood := cgood) (bad := [])
                                    (crest := crest); try assumption.
  apply extract_params_empty.
Qed.

(** After such queries and clauses, a similarity clause whose second
    argument passes [isdigit] and is not converted by [int] (it holds a
    digit that is no decimal digit, or more digits than the interpreter
    converts) makes [extract] raise the [ValueError] of [int]. *)
Theorem extract_value_error (good : list parsed) (q : parsed)
    (rest : list parsed) (cgood crest : list (list str))
    (p0 p1 : str) (more : list str) (limit : Z) :
  Forall clauses_have_query good ->
  p_similar q = Some (cgood ++ (p0 :: p1 :: more) :: crest) ->
  Forall params_ok cgood ->
  isdigit p1 = true -> int p1 = None ->
  extract (good ++ q :: rest) limit = Raise ValueError.
Proof.
  intros Hgood Hsim Hcgood Hd Hv.
  apply extract_first_offender with (q := q) (cgood := cgood)
                                    (bad := p0 :: p1 :: more) (crest := crest);
    try assumption.
  intros x st. now apply extract_params_not_decimal.
Qed.

(** ** Signs of the derived numbers *)

Lemma rfold_invariant (A S : Type) (f : S -> A -> result S) (P : S -> Prop) :
  (forall s x s', P s -> f s x = Ok s' -> P s') ->
  forall xs s s', P s -> rfold f xs s = Ok s' -> P s'.
Proof.
  intros Hf xs; induction xs as [|x xs IH]; intros s s' Hs H; simpl in H.
  - now inversion H; subst.
  - destruct (f s x) as [s1|e] eqn:Hx; cbn [rbind] in H; [|discriminate]. eauto.
Qed.

Lemma limit_step_nonneg (c : Z) (q : parsed) (c' : Z) :
  (0 <= c)%Z -> limit_step c q = Ok c' -> (0 <= c')%Z.
Proof.
  intros Hc. unfold limit_step.
  destruct (p_limit q) as [s|]; [|intros H; inversion H; subst; exact Hc].
  destruct (limit_truthy (LStr s) && isdigit s).
  - destruct (int s) as [n|]; [|discriminate]. cbn [rbind].
    destruct (limit_truthy (LInt n)).
    + destruct (Z.ltb_spec c n); intros Hr; inversion Hr; subst; lia.
    + intros H; inversion H; subst; exact Hc.
  - cbn [rbind]. destruct (limit_truthy (LStr s)); [discriminate|].
    intros H; inversion H; subst; exact Hc.
Qed.

Lemma extract_params_nonneg (x : nat) (st st' : list (nat * str) * Z)
    (params : list str) :
  (0 <= snd st)%Z -> extract_params x st params = Ok st' -> (0 <= snd st')%Z.
Proof.
  destruct st as [equeries c]. unfold extract_params. cbn [snd]. intros Hc.
  destruct (getitem params 0) as [p0|e]; cbn [rbind]; [|discriminate].
  destruct params as [|? [|p1 ?]]; try (intros H; inversion H; subst; exact Hc).
  destruct (isdigit p1); [|intros H; inversion H; subst; exact Hc].
  destruct (int p1) as [v|]; [|discriminate].
  destruct (Z.ltb_spec c v); intros Hr; inversion Hr; subst; cbn [snd]; lia.
Qed.

Lemma extract_query_nonneg (st st' : list (nat * str) * Z) (xq : nat * parsed) :
  (0 <= snd st)%Z -> extract_query st xq = Ok st' -> (0 <= snd st')%Z.
Proof.
  destruct xq as [x q]. unfold extract_query. intros Hc.
  destruct (p_similar q) as [clauses|]; [|intros H; inversion H; subst; exact Hc].
  apply rfold_invariant with (P := fun s => (0 <= snd s)%Z); [|exact Hc].
  intros s params s'. apply extract_params_nonneg.
Qed.

(** On the database path no count is negative, whatever limit the caller
    gives: the effective limit [max(limit, self.limit(queries))] and the
    candidate count [extract] derives from it are both at least 0. *)
Theorem dbsearch_counts_nonnegative (queries : list parsed) (limit0 ql : Z)
    (equeries : list (nat * str)) (candidates : Z) :
  limit queries = Ok ql ->
  extract queries (Z.max limit0 ql) = Ok (equeries, candidates) ->
  (0 <= ql)%Z /\ (0 <= Z.max limit0 ql)%Z /\ (0 <= candidates)%Z.
Proof.
  intros Hl He.
  assert (Hql : (0 <= ql)%Z).
  { unfold limit in Hl.
    eapply rfold_invariant with (P := fun c => (0 <= c)%Z); [| |exact Hl]; [|lia].
    intros c q c'. apply limit_step_nonneg. }
  split; [exact Hql|]. split; [lia|].
  unfold extract in He.
  destruct (rfold extract_query (enumerate queries) ([], 0%Z)) as [[eq c]|e] eqn:Hr;
    cbn [rbind] in He; [|discriminate].
  assert (Hc : (0 <= snd (eq, c))%Z).
  { eapply rfold_invariant with (P := fun s => (0 <= snd s)%Z); [| |exact Hr].
    - intros s xq s'. apply extract_query_nonneg.
    - simpl. lia. }
  cbn [snd] in Hc. inversion He; subst.
  destruct (c =? 0)%Z; [|exact Hc].
  destruct (multitoken queries); lia.
Qed.


(* ------------------------------------------------------------------ *)
(** ** The database path *)

Lemma mapM_pure (A B : Type) (f : A -> M B) (g : A -> B) :
  (forall x m, f x m = Ok (g x, m)) ->
  forall xs n, mapM f xs n = Ok (map g xs, n).
Proof.
  intros Hf xs; induction xs as [|x xs IH]; intros n; simpl; [reflexivity|].
  unfold bind, ret. now rewrite Hf, IH.
Qed.

Lemma mapM_raise_first (A B : Type) (f : A -> M B) (e : pyerror) (x : A)
    (xs : list A) (n : nat) :
  f x n = Raise e -> mapM f (x :: xs) n = Raise e.
Proof. intros H. simpl. unfold bind. now rewrite H. Qed.

Section Multiplexer.
Variable x : nat.

(** The positions of the embeddings queries of query [x], counting from [k]. *)
Lemma indices_from_ge (equeries : list (nat * str)) :
  forall k i,
    In i (map fst (filter (fun '(_, (y, _)) => Nat.eqb x y)
                          (combine (seq k (List.length equeries)) equeries))) ->
    k <= i.
Proof.
  induction equeries as [|[y t] equeries IH]; intros k i Hi;
    cbn [List.length seq combine filter] in Hi; [destruct Hi|].
  destruct (Nat.eqb x y); cbn [map fst] in Hi.
  - destruct Hi as [<-|Hi]; [lia|]. apply IH in Hi. lia.
  - apply IH in Hi. lia.
Qed.

Lemma existsb_indices_below (equeries : list (nat * str)) (k i : nat) :
  i < k ->
  existsb (Nat.eqb i)
          (map fst (filter (fun '(_, (y, _)) => Nat.eqb x y)
                           (combine (seq k (List.length equeries)) equeries)))
  = false.
Proof.
  intros Hik.
  destruct (existsb _ _) eqn:He; [|reflexivity].
  apply existsb_exists in He. destruct He as (j & Hj & Heq).
  apply indices_from_ge in Hj. apply Nat.eqb_eq in Heq. lia.
Qed.

(** Selecting the results whose position is one of the query's positions is
    selecting, from the results paired with their embeddings queries, the
    ones that came from the query. *)
Lemma select_from (A : Type) (found : list A) :
  forall (k : nat) (equeries : list (nat * str)),
    map snd (filter (fun '(i, _) =>
                       existsb (Nat.eqb i)
                         (map fst (filter (fun '(_, (y, _)) => Nat.eqb x y)
                                     (combine (seq k (List.length equeries)) equeries))))
                    (combine (seq k (List.length found)) found))
    = candidates_of x equeries found.
Proof.
  unfold candidates_of.
  induction found as [|s found IH]; intros k equeries.
  - simpl. now rewrite combine_nil.
  - destruct equeries as [|[y t] equeries].
    + cbn [List.length seq combine filter map existsb].
      clear IH. generalize (S k).
      induction found as [|s' found IH]; intros j; [reflexivity|].
      cbn [List.length seq combine filter]. apply IH.
    + cbn [List.length seq combine filter fst snd].
      destruct (Nat.eqb x y) eqn:Hxy; cbn [map fst existsb].
      * rewrite Nat.eqb_refl. cbn [orb map snd]. f_equal.
        rewrite <- (IH (S k) equeries). f_equal.
        apply filter_ext_in. intros [i s'] Hin.
        apply in_combine_l, in_seq in Hin.
        destruct (Nat.eqb_spec i k); [lia | reflexivity].
      * rewrite existsb_indices_below by lia. apply IH.
Qed.

Lemma select_candidates (A : Type) (found : list A) (equeries : list (nat * str)) :
  map snd (filter (fun '(i, _) =>
                     existsb (Nat.eqb i)
                       (map fst (filter (fun '(_, (y, _)) => Nat.eqb x y)
                                        (enumerate equeries))))
                  (enumerate found))
  = candidates_of x equeries found.
Proof. apply select_from. Qed.

End Multiplexer.

Lemma extract_nil (limit : Z) : exists c, extract [] limit = Ok ([], c).
Proof. unfold extract. simpl. eauto. Qed.

(** What [dbsearch] returns: one row per query, in the order of the batch.
    The row of the query at index [x] is what the database makes of the
    parsed query, of the results of the bulk index search that belong to
    its own similarity clauses, in their order, and of the effective limit
    [max(limit, self.limit(queries))].  The index is searched once, for all
    the embeddings queries of the batch with the candidate count of
    [extract], and not at all when there are none. *)
Theorem dbsearch_rows self (db : Database R Row) (queries : list str) (limit0 : Z)
    (weights : weights_arg R) (n : nat) (rows : list Row) (n' : nat) :
  dbsearch self db queries limit0 weights n = Ok (rows, n') ->
  exists ql equeries candidates found,
    limit (parse self db queries) = Ok ql /\
    extract (parse self db queries) (Z.max limit0 ql) = Ok (equeries, candidates) /\
    (equeries = [] -> found = [] /\ n' = n) /\
    (equeries <> [] ->
     search self (map snd equeries) candidates weights n = Ok (Some found, n')) /\
    rows = map (fun xq => db_search db (snd xq)
                            (candidates_of (fst xq) equeries found)
                            (Z.max limit0 ql))
               (enumerate (parse self db queries)).
Proof.
  unfold dbsearch, bind, lift. intros H.
  destruct (limit (parse self db queries)) as [ql|e]; [|discriminate].
  destruct (extract (parse self db queries) (Z.max limit0 ql))
    as [[equeries candidates]|e] eqn:He; [|discriminate].
  exists ql, equeries, candidates.
  assert (Hrow : forall (l : list (ranked R)) (xq : nat * parsed) (m : nat),
             (let '(x, q) := xq in
              let indices :=
                map fst (filter (fun '(_, (y, _)) => Nat.eqb x y) (enumerate equeries)) in
              match Ok (A:=list (nat * ranked R)) (enumerate l) with
              | Ok items =>
                  Ok (db_search db q
                        (map snd (filter (fun '(i, _) => existsb (Nat.eqb i) indices)
                                         items))
                        (Z.max limit0 ql), m)
              | Raise e => Raise e
              end)
             = Ok (db_search db (snd xq) (candidates_of (fst xq) equeries l)
                             (Z.max limit0 ql), m)).
  { intros l [x q] m. cbv beta iota zeta. cbn [fst snd].
    now rewrite select_candidates. }
  destruct equeries as [|eq0 equeries].
  - exists []. unfold ret at 1 in H.
    rewrite mapM_pure
      with (g := fun xq => db_search db (snd xq) (candidates_of (fst xq) [] [])
                                     (Z.max limit0 ql)) in H.
    + inversion H; subst. split; [reflexivity|]. split; [exact He|].
      split; [intros _; split; reflexivity|]. split; [congruence | reflexivity].
    + intros xq m. rewrite <- (Hrow [] xq m). destruct xq. reflexivity.
  - destruct (search self (map snd (eq0 :: equeries)) candidates weights n)
      as [[[l|] n1]|e] eqn:Hs; [| |discriminate].
    + exists l.
      rewrite mapM_pure
        with (g := fun xq => db_search db (snd xq)
                               (candidates_of (fst xq) (eq0 :: equeries) l)
                               (Z.max limit0 ql)) in H.
      * inversion H; subst. split; [reflexivity|]. split; [exact He|].
        split; [discriminate|]. split; [intros _; reflexivity | reflexivity].
      * intros xq m. rewrite <- (Hrow l xq m). destruct xq. reflexivity.
    + exfalso. destruct (parse self db queries) as [|q qs].
      * destruct (extract_nil (Z.max limit0 ql)) as [c Hc]. congruence.
      * unfold enumerate in H. cbn [List.length seq combine] in H.
        rewrite mapM_raise_first with (e := TypeError) in H; [discriminate|].
        reflexivity.
Qed.

Lemma extract_no_clause (queries : list parsed) :
  Forall (fun q => p_similar q = None \/ p_similar q = Some []) queries ->
  forall k st,
    rfold extract_query (combine (seq k (List.length queries)) queries) st = Ok st.
Proof.
  induction 1 as [|q queries Hq _ IH]; intros k st; [reflexivity|].
  cbn [List.length seq combine rfold extract_query].
  destruct Hq as [-> | ->]; cbn [rfold rbind]; apply IH.
Qed.

Lemma map_enumerate_snd (A B : Type) (h : A -> B) (xs : list A) :
  map (fun xq : nat * A => h (snd xq)) (enumerate xs) = map h xs.
Proof. rewrite <- (map_map snd h), enumerate_snd. reflexivity. Qed.

(** A batch without similarity clauses searches no index: provided its limit
    clauses can be read, every query is handed to the database with an
    empty list of candidates, and the normalization flag is not consulted. *)
Theorem dbsearch_without_similar self (db : Database R Row) (queries : list str)
    (limit0 ql : Z) (weights : weights_arg R) (n : nat) :
  Forall (fun q => p_similar q = None \/ p_similar q = Some [])
         (parse self db queries) ->
  limit (parse self db queries) = Ok ql ->
  dbsearch self db queries limit0 weights n
  = Ok (map (fun q => db_search db q [] (Z.max limit0 ql)) (parse self db queries), n).
Proof.
  intros Hno Hl. unfold dbsearch, bind, lift. rewrite Hl.
  unfold extract, enumerate at 1. rewrite (extract_no_clause Hno). cbn [rbind].
  unfold ret at 1.
  rewrite mapM_pure
    with (g := fun xq : nat * parsed => db_search db (snd xq) [] (Z.max limit0 ql)).
  - do 2 f_equal.
    apply (map_enumerate_snd (fun q => db_search db q [] (Z.max limit0 ql))).
  - intros [x q] m. reflexivity.
Qed.

(* ------------------------------------------------------------------ *)
(** ** Index positions as identifiers *)

Lemma resolve_positions self (results : list (list (Z * R))) (res : list (ranked R)) :
  indexids self = true -> resolve self results = Ok res -> Forall positions res.
Proof.
  intros Hidx. unfold resolve. rewrite Hidx. cbn [negb].
  assert (Hmap : Forall positions (map (map (fun '(i, score) => (IdInt i, score))) results)).
  { apply Forall_map, Forall_forall. intros r _.
    apply Forall_map, Forall_forall. intros [i score] _. now exists i. }
  destruct (config_ids self); intros H; inversion H; subst; exact Hmap.
Qed.

Lemma search_positions self (queries : list str) (limit : Z)
    (weights : weights_arg R) (n : nat) (r : option (list (ranked R))) (n' : nat) :
  indexids self = true ->
  search self queries limit weights n = Ok (r, n') ->
  forall l, r = Some l -> Forall positions l.
Proof.
  intros Hidx. unfold search, bind, lift, ret.
  assert (Hd : forall a d, dense self a queries limit = Ok d -> Forall positions d).
  { intros a d. unfold dense. now apply resolve_positions. }
  assert (Hs : forall sc s, sparse self sc queries limit = Ok s -> Forall positions s).
  { intros sc s. unfold sparse. now apply resolve_positions. }
  destruct (ann self) as [a|].
  - destruct (dense self a queries limit) as [d|e] eqn:Hdense; [|discriminate].
    apply Hd in Hdense.
    destruct (scoring self) as [sc|].
    + destruct (sparse self sc queries limit) as [s|e] eqn:Hsparse; [|discriminate].
      apply Hs in Hsparse.
      destruct (truthy (Some d) && truthy (Some s)).
      * destruct (hybrid sc weights limit d s n) as [[results n1]|e] eqn:Hh;
          [|discriminate].
        intros H l Hl. subst r. inversion H; subst. clear H.
        apply hybrid_ids_incl in Hh.
        assert (Hpairs : Forall (fun p => positions (fst p) /\ positions (snd p))
                                (combine d s)).
        { apply Forall_forall. intros [dl sl] Hin. split.
          - apply in_combine_l in Hin. rewrite Forall_forall in Hdense. auto.
          - apply in_combine_r in Hin. rewrite Forall_forall in Hsparse. auto. }
        revert Hpairs. induction Hh as [|fused p results ps Hincl _ IH]; intros Hpairs;
          constructor.
        -- inversion Hpairs as [|? ? [Hp1 Hp2] _]; subst.
           unfold positions in *. rewrite Forall_forall in *.
           intros entry Hentry.
           assert (Hin : In (fst entry) (map fst (fst p) ++ map fst (snd p))).
           { apply Hincl, in_map, Hentry. }
           apply in_app_or in Hin. destruct Hin as [Hin|Hin];
             apply in_map_iff in Hin; destruct Hin as (entry' & <- & Hin'); auto.
        -- apply IH. now inversion Hpairs.
      * intros H l Hl. subst r. inversion H as [[Hr Hn]].
        destruct d; inversion Hr; subst; assumption.
    + intros H l Hl. subst r. inversion H as [[Hr Hn]].
      destruct d; inversion Hr; subst; assumption.
  - destruct (scoring self) as [sc|].
    + destruct (sparse self sc queries limit) as [s|e] eqn:Hsparse; [|discriminate].
      apply Hs in Hsparse.
      intros H l Hl. subst r. inversion H; subst. assumption.
    + intros H l Hl. subst r. inversion H.
Qed.

(** With [indexids=True] a batch call bypasses the database and the lookup
    table, even when both are configured: it returns result lists, never
    database rows, and every identifier in them is an index position. *)
Theorem call_indexids_positions self (queries : list str) (limit : option Z)
    (weights : option (weights_arg R)) (n : nat) (out : output R Row) (n' : nat) :
  indexids self = true ->
  call self queries limit weights n = Ok (out, n') ->
  exists r,
    out = Results r /\
    forall l, r = Some l -> Forall (Forall (fun entry => is_position (fst entry))) l.
Proof.
  intros Hidx. unfold call. rewrite Hidx. cbn [negb].
  set (lim := match limit with Some l => if (l =? 0)%Z then 3%Z else l | None => 3%Z end).
  set (ws := match weights with Some w => w | None => WNumber half end).
  assert (Hrun : (r <- search self queries lim ws;; ret (Results (Row:=Row) r)) n
                 = Ok (out, n') ->
                 exists r,
                   out = Results r /\
                   forall l, r = Some l ->
                             Forall (Forall (fun entry => is_position (fst entry))) l).
  { unfold bind, ret. intros H.
    destruct (search self queries lim ws n) as [[r m]|e] eqn:Hr; [|discriminate].
    inversion H; subst. exists r. split; [reflexivity|].
    intros l Hl. eapply search_positions in Hr; eauto. }
  destruct (ann self) as [a|]; destruct (scoring self) as [sc|].
  4:{ unfold ret. intros H; inversion H; subst. eexists. split; [reflexivity|].
      intros l Hl. inversion Hl; subst.
      apply Forall_forall. intros e He. apply repeat_spec in He. subst. constructor. }
  all: destruct (database self); exact Hrun.
Qed.


(* ------------------------------------------------------------------ *)
(** ** The fused score of an identifier *)

Section FusedScore.
Variable sc : Scoring R.
Variable b : bool.
(** The scoring gives the same answer at every consultation. *)
Hypothesis flag : forall k, isnormalized sc k = b.

Lemma visit_accumulated w uids (r : nat) (u : pyid) score (n : nat) uids' (n' : nat) :
  visit sc w uids (r, (u, score)) n = Ok (uids', n') ->
  forall uid,
    accumulated uid uids'
    = if pyid_eqb u uid
      then add (accumulated uid uids) (contribution b (S r) score w)
      else accumulated uid uids.
Proof.
  intros H uid.
  destruct (visit_get sc w uids r u score n) as (uids2 & Hv & Hget & Hframe).
  rewrite Hv in H. inversion H; subst. rewrite flag in Hget.
  destruct (pyid_eq_dec u uid) as [<-|Hne].
  - rewrite pyid_eqb_refl. unfold accumulated at 1. now rewrite Hget.
  - rewrite pyid_eqb_neq by exact Hne. unfold accumulated.
    rewrite Hframe by congruence. reflexivity.
Qed.

Lemma foldM_visit_accumulated w (es : list (nat * (pyid * R))) :
  forall uids n uids' n',
    foldM (visit sc w) es uids n = Ok (uids', n') ->
    forall uid,
      accumulated uid uids'
      = fold_left (fun a (e : nat * (pyid * R)) =>
                     if pyid_eqb (fst (snd e)) uid
                     then add a (contribution b (S (fst e)) (snd (snd e)) w)
                     else a)
                  es (accumulated uid uids).
Proof.
  induction es as [|[r [u score]] es IH]; intros uids n uids' n' H uid; cbn [foldM] in H.
  - unfold ret in H. now inversion H; subst.
  - unfold bind in H.
    destruct (visit sc w uids (r, (u, score)) n) as [[uids1 n1]|e] eqn:Hv; [|discriminate].
    cbn [fold_left fst snd]. rewrite <- (visit_accumulated _ _ _ _ _ _ Hv uid).
    now apply IH with (n := n1) (n' := n').
Qed.

Lemma side_accumulated (weights : list R) uids (v : nat) scores (n : nat)
    uids' (n' : nat) w :
  getitem weights (Z.of_nat v) = Ok w ->
  side sc weights uids (v, scores) n = Ok (uids', n') ->
  forall uid, accumulated uid uids' = side_total b w scores uid (accumulated uid uids).
Proof.
  intros Hw H uid. rewrite side_run with (w := w) in H by exact Hw.
  apply foldM_visit_accumulated with (uid := uid) in H. rewrite H.
  unfold side_total. now destruct (ltb zero w).
Qed.

Lemma In_dict_get uids uid (x : R) :
  NoDup (map fst uids) -> In (uid, x) uids -> dict_get uid uids = Some x.
Proof.
  induction uids as [|[k v] d IH]; intros Hnd Hin; [destruct Hin|].
  simpl in Hnd. inversion Hnd as [|? ? Hnotin Hnd']; subst. simpl.
  destruct Hin as [Heq|Hin].
  - inversion Heq; subst. now rewrite pyid_eqb_refl.
  - destruct (pyid_eq_dec k uid) as [->|Hne].
    + exfalso. apply Hnotin. apply in_map_iff. now exists (uid, x).
    + rewrite pyid_eqb_neq by exact Hne. now apply IH.
Qed.

Lemma slice_sorted_In_item (limit : Z) uids (entry : pyid * R) :
  In entry (slice_to limit (sorted_desc ltb uids)) -> In entry uids.
Proof.
  destruct (slice_to_firstn limit (sorted_desc ltb uids)) as [k ->]. intros H.
  assert (H' : In entry (sorted_desc ltb uids)).
  { rewrite <- (firstn_skipn k (sorted_desc ltb uids)). apply in_or_app. now left. }
  eapply Permutation_in; [|exact H']. apply sorted_desc_perm.
Qed.

(** The score a hybrid fusion returns with an identifier is the sum the loop
    builds for it: from [0.0], the contribution of each of its entries in
    the dense list of the query, in order, then the contribution of each of
    its entries in the sparse list, every contribution being [score * w]
    for normalized scores and [(1 / rank) * w] otherwise; a side whose
    weight is not above 0 adds nothing. *)
Theorem hybrid_fused_scores (weights : weights_arg R) (limit : Z)
    (dres sres : list (ranked R)) (w0 w1 : R) (rest : list R) (n : nat)
    (results : list (ranked R)) (n' : nat) :
  as_sequence weights = w0 :: w1 :: rest ->
  hybrid sc weights limit dres sres n = Ok (results, n') ->
  Forall2 (fun fused vectors =>
             forall uid score,
               In (uid, score) fused ->
               score = fused_score b w0 w1 (fst vectors) (snd vectors) uid)
          results (combine dres sres).
Proof.
  intros Hw. unfold hybrid. rewrite Hw. apply mapM_Forall2.
  intros [dl sl] m l m' Hfuse uid score Hin. cbn [fst snd].
  rewrite fuse_two_sides in Hfuse. unfold bind, ret in Hfuse.
  destruct (side sc (w0 :: w1 :: rest) [] (0, dl) m) as [[u0 m0]|e] eqn:H0;
    [|discriminate].
  destruct (side sc (w0 :: w1 :: rest) u0 (1, sl) m0) as [[u1 m1]|e] eqn:H1;
    [|discriminate].
  inversion Hfuse; subst.
  assert (Hnd0 : NoDup (map fst u0)) by (eapply side_NoDup; [|exact H0]; constructor).
  assert (Hnd1 : NoDup (map fst u1)) by (eapply side_NoDup; [|exact H1]; exact Hnd0).
  apply slice_sorted_In_item in Hin. apply In_dict_get in Hin; [|exact Hnd1].
  assert (Hacc : accumulated uid u1 = score) by (unfold accumulated; now rewrite Hin).
  rewrite <- Hacc. unfold fused_score.
  rewrite (side_accumulated _ _ _ _ _ (getitem_1 w0 w1 rest) H1 uid).
  rewrite (side_accumulated _ _ _ _ _ (getitem_0 w0 (w1 :: rest)) H0 uid).
  reflexivity.
Qed.

End FusedScore.

End Properties.

(* ------------------------------------------------------------------ *)
(** * The code at concrete inputs *)

Import Examples.

#[local] Existing Instance sample_interpreter.

(** A clause, a query that [extract] reads without raising. *)
Ltac read_clause :=
  split;
  [ discriminate
  | let Hp := fresh "Hp" in
    let Hd := fresh "Hd" in
    intros ? ? ? Hp Hd; inversion Hp; subst; clear Hp;
    first [ vm_compute; discriminate | vm_compute in Hd; discriminate Hd ] ].

Ltac read_query :=
  let Hc := fresh "Hc" in
  intros ? Hc; inversion Hc; subst; clear Hc;
  repeat (constructor; [read_clause|]); try constructor.

(** Exact arithmetic satisfies the law of scores that C5 relies on, with
    equality of representations. *)
Lemma Q_add_zero_mul_one (x : Q) : ltb zero x = true -> add zero (mul x one) = x.
Proof.
  intros _. destruct x as [p q]. cbn [add mul zero one Q_score].
  unfold Qplus, Qmult. cbn [Qnum Qden].
  rewrite Pos.mul_1_r, Z.mul_1_r. simpl. now rewrite Z.mul_1_r.
Qed.

(** C1 on the hybrid index with normalized scores, weights [0.5, 0.5] and
    limit 2: identifier 1, found on both sides, gets
    [0.0 + 0.1 * 0.5 + 0.8 * 0.5]. *)
Lemma hybrid_adds_contributions_witness :
  as_sequence (WNumber (half : Q)) = [half; sub one half] /\
  ann (hybrid_index true) = Some the_ann /\
  scoring (hybrid_index true) = Some (the_scoring (fun _ => true)) /\
  dense (hybrid_index true) the_ann [lit "cats"] 2 = Ok dense_lists /\
  sparse (hybrid_index true) (the_scoring (fun _ => true)) [lit "cats"] 2
  = Ok sparse_lists /\
  map (fused true half (sub one half) 2) (combine dense_lists sparse_lists)
  = [[(IdInt 0, (9 # 20)%Q); (IdInt 1, (180 # 400)%Q)]] /\
  hybrid (the_scoring (fun _ => true)) (WNumber half) 2 dense_lists sparse_lists 0
  = Ok (map (fused true half (sub one half) 2) (combine dense_lists sparse_lists),
        0 + visited half (sub one half) (combine dense_lists sparse_lists)) /\
  search (hybrid_index true) [lit "cats"] 2 (WNumber half) 0
  = Ok (Some (map (fused true half (sub one half) 2)
                  (combine dense_lists sparse_lists)),
        0 + visited half (sub one half) (combine dense_lists sparse_lists)).
Proof.
  split; [reflexivity|]. split; [reflexivity|]. split; [reflexivity|].
  split; [reflexivity|]. split; [reflexivity|]. split; [reflexivity|].
  destruct (@hybrid_adds_contributions Q _ E Row (hybrid_index true) the_ann
              (the_scoring (fun _ => true)) [lit "cats"] (WNumber half) 2%Z
              dense_lists sparse_lists half (sub one half) [] true 0
              eq_refl (fun k _ => eq_refl)) as (Hh & Hs & _).
  split; [exact Hh|].
  apply Hs; try reflexivity; discriminate.
Defined.

(** The same side under a weight that is not above 0: nothing is visited. *)
Example side_weight_zero_skipped :
  side (the_scoring (fun _ => true)) [1%Q; 0%Q] [(IdInt 0, (9 # 10)%Q)]
       (1, [(IdInt 1, (8 # 10)%Q); (IdInt 3, (2 # 10)%Q)]) 7
  = Ok ([(IdInt 0, (9 # 10)%Q)], 7).
Proof. reflexivity. Qed.

(** C7 at limit 2: three identifiers are accumulated, two are returned. *)
Lemma hybrid_at_most_limit_witness :
  (0 <= 2)%Z /\
  hybrid (the_scoring (fun _ => true)) (WNumber half) 2 dense_lists sparse_lists 0
  = Ok ([[(IdInt 0, (9 # 20)%Q); (IdInt 1, (180 # 400)%Q)]], 4) /\
  Forall (fun l : ranked Q => (Z.of_nat (List.length l) <= 2)%Z)
         [[(IdInt 0, (9 # 20)%Q); (IdInt 1, (180 # 400)%Q)]].
Proof.
  assert (H : hybrid (the_scoring (fun _ => true)) (WNumber half) 2
                dense_lists sparse_lists 0
              = Ok ([[(IdInt 0, (9 # 20)%Q); (IdInt 1, (180 # 400)%Q)]], 4))
    by reflexivity.
  split; [discriminate|]. split; [exact H|].
  refine (@hybrid_at_most_limit Q _ _ _ 2%Z _ _ 0 _ 4 _ H). discriminate.
Defined.

(** C10 with identifier 1 in both lists: it comes out once. *)
Lemma hybrid_identifiers_unique_witness :
  hybrid (the_scoring (fun _ => false)) (WNumber half) 3 dense_lists sparse_lists 0
  = Ok ([[(IdInt 1, (6 # 8)%Q); (IdInt 0, (1 # 2)%Q); (IdInt 3, (1 # 4)%Q)]], 4) /\
  Forall (fun l : ranked Q => NoDup (map fst l))
         [[(IdInt 1, (6 # 8)%Q); (IdInt 0, (1 # 2)%Q); (IdInt 3, (1 # 4)%Q)]].
Proof.
  assert (H : hybrid (the_scoring (fun _ => false)) (WNumber half) 3
                dense_lists sparse_lists 0
              = Ok ([[(IdInt 1, (6 # 8)%Q); (IdInt 0, (1 # 2)%Q);
                      (IdInt 3, (1 # 4)%Q)]], 4))
    by reflexivity.
  split; [exact H|]. exact (@hybrid_identifiers_unique Q _ _ _ 3%Z _ _ 0 _ 4 H).
Defined.

(** C5 on a batch of two queries, limit 3. *)
Lemma hybrid_one_zero_is_dense_witness :
  (forall k : nat, isnormalized (the_scoring (fun _ => true)) k = true) /\
  dense (hybrid_index true) the_ann [lit "cats"; lit "dogs"] 3
  = Ok (dense_lists ++ dense_lists) /\
  exists n',
    search (hybrid_index true) [lit "cats"; lit "dogs"] 3 (WSeq [one; zero]) 0
    = Ok (Some (dense_lists ++ dense_lists), n').
Proof.
  split; [reflexivity|]. split; [reflexivity|].
  refine (@hybrid_one_zero_is_dense Q _ E Row (the_scoring (fun _ => true))
            (fun _ => eq_refl) eq_refl eq_refl Q_add_zero_mul_one
            (hybrid_index true) the_ann [lit "cats"; lit "dogs"] 3%Z
            (dense_lists ++ dense_lists)
            [[(IdInt 1, (8 # 10)%Q); (IdInt 3, (2 # 10)%Q)];
             [(IdInt 1, (8 # 10)%Q); (IdInt 3, (2 # 10)%Q)]]
            0 eq_refl eq_refl eq_refl eq_refl eq_refl _).
  repeat constructor; simpl; intuition discriminate.
Defined.

(** C6 on the dense index: the hit with score 0 is gone. *)
Lemma dense_results_positive_witness :
  ann dense_index = Some the_ann /\
  dense dense_index the_ann [lit "cats"] 3 = Ok dense_lists /\
  Forall (Forall (positive_score (R:=Q))) dense_lists /\
  search dense_index [lit "cats"] 3 (WNumber half) 0 = Ok (Some dense_lists, 0).
Proof.
  split; [reflexivity|]. split; [reflexivity|].
  pose proof (@dense_results_positive Q _ E Row dense_index the_ann
                [lit "cats"] 3%Z dense_lists eq_refl eq_refl) as (_ & H2 & H3).
  split; [exact H2|]. exact (H3 eq_refl (WNumber half) 0).
Defined.

(** C8 on a batch of two queries, with a limit and without weights. *)
Lemma call_without_index_witness :
  ann no_index = None /\ scoring no_index = None /\
  exists results,
    call no_index [lit "cats"; lit "dogs"] (Some 5%Z) None 0
    = Ok (Results (Some results), 0) /\
    List.length results = 2 /\
    Forall (fun l => l = []) results.
Proof.
  split; [reflexivity|]. split; [reflexivity|].
  exact (@call_without_index Q _ _ E Row no_index [lit "cats"; lit "dogs"]
           (Some 5%Z) None 0 eq_refl eq_refl).
Defined.


(** The defaults of C4: a filter of several tokens over-fetches ten times
    the limit, a filter of one token does not. *)
Example extract_default_candidates :
  extract [filtered] 3 = Ok ([(0, (lit "cats"))], 30%Z) /\
  extract [the_parse sql_query] 3 = Ok ([(0, (lit "cats"))], 3%Z).
Proof. split; reflexivity. Qed.



(** A collaborator whose answer changes between two consultations gets the
    entries of one call combined by two formulas: identifier 0 by convex
    combination ([0.9 * 0.5]), identifier 3 by reciprocal rank ([1/1 * 0.5]). *)
Example formula_follows_each_consultation :
  hybrid (the_scoring (fun k => Nat.eqb k 0)) (WNumber half) 2
         [[(IdInt 0, (9 # 10)%Q)]] [[(IdInt 3, (2 # 10)%Q)]] 0
  = Ok ([[(IdInt 3, (1 # 2)%Q); (IdInt 0, (9 # 20)%Q)]], 2).
Proof. reflexivity. Qed.

(** C2 fails on the empty batch when only the dense index is configured:
    [dense] is the empty list, which is false, so [search] returns [sparse],
    which is [None]. *)
Theorem empty_batch_dense_only_returns_None :
  call dense_index [] None None 0 = Ok (Results None, 0).
Proof. reflexivity. Qed.

(** The other configurations return the empty list for the empty batch. *)
Example empty_batch_elsewhere :
  call (hybrid_index true) [] None None 0 = Ok (Results (Some []), 0) /\
  call (index_of None (Some (the_scoring (fun _ => true))) None) [] None None 0
  = Ok (Results (Some []), 0) /\
  call no_index [] None None 0 = Ok (Results (Some []), 0) /\
  call database_index [] None None 0 = Ok (Rows [], 0).
Proof. repeat split. Qed.

(** C3 fails on a limit clause that is not a number: the clause is still a
    string when it is compared with [qlimit], and the batch call raises. *)
Theorem nondigit_limit_clause_raises :
  limit [the_parse sql_query] = Raise TypeError /\
  call database_index [sql_query] None None 0 = Raise TypeError.
Proof. split; reflexivity. Qed.

(** With numeric, empty or missing limit clauses the effective limit is the
    largest of the caller's and the queries': 7 here, over the default 3. *)
Example explicit_limit_overrides :
  limit [two_clauses; filtered] = Ok 7%Z /\
  limit [{| p_select := true; p_limit := Some [];
            p_similar := None; p_where := None |}] = Ok 0%Z.
Proof. split; reflexivity. Qed.

(** The length of the result, on the dense index and on the database. *)
Lemma call_length_witness :
  ann_contract dense_index /\ scoring_contract dense_index /\
  call dense_index [lit "cats"] None None 0 = Ok (Results (Some dense_lists), 0) /\
  List.length dense_lists = List.length [(lit "cats")].
Proof.
  assert (Ha : ann_contract dense_index).
  { intros a H queries k. inversion H; subst. apply length_map. }
  assert (Hs : scoring_contract dense_index).
  { intros sc H. discriminate H. }
  assert (H : call dense_index [lit "cats"] None None 0
              = Ok (Results (Some dense_lists), 0)) by reflexivity.
  split; [exact Ha|]. split; [exact Hs|]. split; [exact H|].
  exact (@call_length Q _ _ E Row dense_index [lit "cats"] None None 0
           (Results (Some dense_lists)) 0 Ha Hs H).
Defined.

Lemma limit_ok_witness :
  Forall limit_clause_ok [two_clauses; filtered] /\
  limit [two_clauses; filtered] = Ok 7%Z.
Proof.
  assert (H : Forall limit_clause_ok [two_clauses; filtered]).
  { constructor; [exact I|]. constructor; [|constructor].
    right. split; [reflexivity | vm_compute; discriminate]. }
  split; [exact H|]. exact (@limit_ok _ _ H).
Defined.

(** The limit clause [abc] of the SQL query, after a query with limit 7. *)
Lemma limit_raises_witness :
  Forall limit_clause_ok [filtered] /\
  p_limit (the_parse sql_query) = Some (lit "abc") /\
  lit "abc" <> [] /\ isdigit (lit "abc") = false /\
  limit ([filtered] ++ the_parse sql_query :: [squared]) = Raise TypeError.
Proof.
  assert (H : Forall limit_clause_ok [filtered]).
  { constructor; [|constructor].
    right. split; [reflexivity | vm_compute; discriminate]. }
  assert (Hs : lit "abc" <> []) by discriminate.
  split; [exact H|]. split; [reflexivity|]. split; [exact Hs|].
  split; [reflexivity|].
  exact (@limit_raises _ [filtered] (the_parse sql_query) [squared] (lit "abc")
           H eq_refl Hs eq_refl).
Defined.

(** A limit clause that is a superscript two, before the clause [abc]. *)
Lemma limit_value_error_witness :
  Forall limit_clause_ok [filtered] /\
  p_limit squared = Some superscript_two /\
  isdigit superscript_two = true /\ int superscript_two = None /\
  limit ([filtered] ++ squared :: [the_parse sql_query]) = Raise ValueError.
Proof.
  assert (H : Forall limit_clause_ok [filtered]).
  { constructor; [|constructor].
    right. split; [reflexivity | vm_compute; discriminate]. }
  split; [exact H|]. split; [reflexivity|]. split; [reflexivity|].
  split; [reflexivity|].
  exact (@limit_value_error _ [filtered] squared [the_parse sql_query]
           superscript_two H eq_refl eq_refl eq_refl).
Defined.

(** ** The Python runtime at small inputs *)

Example isdigit_examples :
  isdigit (lit "20") = true /\ isdigit (lit "") = false /\
  isdigit (lit "1O") = false /\ isdigit (lit "-1") = false /\
  int (lit "007") = Some 7%Z /\ int (lit "20") = Some 20%Z.
Proof. repeat split. Qed.

(** A superscript two is a digit that [int] does not convert; an
    ARABIC-INDIC seven is one that it does. *)
Example isdigit_beyond_ascii :
  isdigit superscript_two = true /\ int superscript_two = None /\
  isdigit [1639%N] = true /\ int [1639%N] = Some 7%Z /\
  int (lit "1" ++ [1639%N]) = Some 17%Z.
Proof. repeat split. Qed.

(** [int] converts 4300 digits and refuses 4301. *)
Example int_digits_bound :
  int (repeat 49%N 4300) <> None /\ int (repeat 49%N 4301) = None.
Proof. split; [vm_compute; discriminate | vm_compute; reflexivity]. Qed.

Example split_examples :
  split (lit "a = 1") = [lit "a"; lit "="; lit "1"] /\
  split (lit "  flag ") = [lit "flag"] /\
  split (lit "") = [] /\ split (lit "   ") = [].
Proof. repeat split. Qed.

(** NEXT LINE (U+0085) and NO-BREAK SPACE (U+00A0) separate tokens as a
    space does. *)
Example split_beyond_ascii :
  split (lit "a" ++ [133%N] ++ lit "b") = [lit "a"; lit "b"] /\
  split (lit "a" ++ [160%N] ++ lit "b") = [lit "a"; lit "b"] /\
  extract [{| p_select := true; p_limit := None; p_similar := Some [[lit "cats"]];
              p_where := Some (lit "a" ++ [133%N] ++ lit "b") |}] 3
  = Ok ([(0, lit "cats")], 30%Z).
Proof. repeat split. Qed.

Example getitem_examples :
  getitem [10; 20; 30]%Z 1 = Ok 20%Z /\ getitem [10; 20; 30]%Z (-1) = Ok 30%Z /\
  getitem [10; 20; 30]%Z 3 = Raise IndexError /\
  getitem [10; 20; 30]%Z (-4) = Raise IndexError.
Proof. repeat split. Qed.

Example slice_to_examples :
  slice_to 2 [1; 2; 3] = [1; 2] /\ slice_to 5 [1; 2; 3] = [1; 2; 3] /\
  slice_to 0 [1; 2; 3] = [] /\ slice_to (-1) [1; 2; 3] = [1; 2].
Proof. repeat split. Qed.

(** [sorted] is stable: equal values keep their order of insertion. *)
Example sorted_desc_stable :
  sorted_desc ltb [(IdInt 0, (1 # 2)%Q); (IdInt 1, (3 # 4)%Q); (IdInt 2, (2 # 4)%Q)]
  = [(IdInt 1, (3 # 4)%Q); (IdInt 0, (1 # 2)%Q); (IdInt 2, (2 # 4)%Q)].
Proof. reflexivity. Qed.

(** The fusion on binary64 scores, reciprocal rank fusion with weights
    [0.5, 0.5]: the identifier ranked first in both lists gets 1.0, ahead of
    the ones ranked second in one list, which get 0.25. *)
Example hybrid_binary64 :
  hybrid {| batchsearch := fun _ _ => []; isnormalized := fun _ => false |}
         (WNumber 0.5%float) 3
         [[(IdInt 7, 0.75%float); (IdInt 8, 0.125%float)]]
         [[(IdInt 7, 12.5%float); (IdInt 9, 3.25%float)]] 0
  = Ok ([[(IdInt 7, 1%float); (IdInt 8, 0.25%float); (IdInt 9, 0.25%float)]], 4).
Proof. vm_compute. reflexivity. Qed.

(* ------------------------------------------------------------------ *)
(** ** The other methods at concrete inputs *)

Lemma Qltb_asym (a b : Q) : ltb a b = true -> ltb b a = false.
Proof.
  cbn [ltb Q_score]. unfold Qltb, Qle_bool.
  destruct (Z.leb_spec (Qnum b * QDen a) (Qnum a * QDen b));
    destruct (Z.leb_spec (Qnum a * QDen b) (Qnum b * QDen a));
    simpl; intros; try reflexivity; try discriminate; lia.
Qed.

(** Positions 0 and -1 of a table of three; position 3 is outside it. *)
Lemma resolve_lookup_witness :
  config_ids resolved_index = Some table /\
  indexids resolved_index = false /\
  (exists res,
     resolve resolved_index [[(0%Z, (9 # 10)%Q); ((-1)%Z, (1 # 10)%Q)]] = Ok res /\
     Forall2 (Forall2 (fun hit entry =>
                         getitem table (fst hit) = Ok (fst entry) /\
                         snd entry = snd hit))
             [[(0%Z, (9 # 10)%Q); ((-1)%Z, (1 # 10)%Q)]] res) /\
  resolve resolved_index [[(0%Z, (9 # 10)%Q)]; [(3%Z, (1 # 10)%Q)]]
  = Raise IndexError.
Proof.
  split; [reflexivity|]. split; [reflexivity|]. split.
  - apply (proj1 (@resolve_lookup Q E Row resolved_index table
                    [[(0%Z, (9 # 10)%Q); ((-1)%Z, (1 # 10)%Q)]] eq_refl eq_refl)).
    repeat constructor; unfold in_table; simpl; discriminate.
  - apply (proj2 (@resolve_lookup Q E Row resolved_index table
                    [[(0%Z, (9 # 10)%Q)]; [(3%Z, (1 # 10)%Q)]] eq_refl eq_refl)).
    apply Exists_cons_tl, Exists_cons_hd, Exists_cons_hd.
    unfold in_table. simpl. intros [_ H]. discriminate H.
Defined.

Example resolve_examples :
  resolve resolved_index [[(0%Z, (9 # 10)%Q); ((-1)%Z, (1 # 10)%Q)]]
  = Ok [[(IdStr (lit "a"), (9 # 10)%Q); (IdStr (lit "c"), (1 # 10)%Q)]] /\
  resolve bypass_index [[(0%Z, (9 # 10)%Q); (7%Z, (1 # 10)%Q)]]
  = Ok [[(IdInt 0, (9 # 10)%Q); (IdInt 7, (1 # 10)%Q)]].
Proof. split; reflexivity. Qed.

(** The index finds scores 0.9, 0.1 and 0: the first two come back. *)
Lemma dense_keeps_positive_hits_witness :
  dense dense_index the_ann [lit "cats"] 3 = Ok dense_lists /\
  map (map snd) dense_lists
  = map (fun hits => filter (ltb zero) (map snd hits))
        (ann_search the_ann (batchtransform dense_index [lit "cats"]) 3).
Proof.
  split; [reflexivity|].
  exact (@dense_keeps_positive_hits Q _ E Row dense_index the_ann [lit "cats"]
           3%Z dense_lists eq_refl).
Defined.

Lemma search_sparse_only_witness :
  ann sparse_index = None /\
  scoring sparse_index = Some (the_scoring (fun _ => true)) /\
  sparse sparse_index (the_scoring (fun _ => true)) [lit "cats"] 3 = Ok sparse_lists /\
  search sparse_index [lit "cats"] 3 (WNumber half) 0 = Ok (Some sparse_lists, 0) /\
  map (map snd) sparse_lists
  = map (map snd) (batchsearch (the_scoring (fun _ => true)) [lit "cats"] 3).
Proof.
  split; [reflexivity|]. split; [reflexivity|]. split; [reflexivity|].
  exact (@search_sparse_only Q _ E Row sparse_index (the_scoring (fun _ => true))
           [lit "cats"] 3%Z (WNumber half) 0 sparse_lists eq_refl eq_refl eq_refl).
Defined.

Lemma hybrid_identifiers_from_inputs_witness :
  hybrid (the_scoring (fun _ => false)) (WNumber half) 4 dense_lists sparse_lists 0
  = Ok ([[(IdInt 1, (6 # 8)%Q); (IdInt 0, (1 # 2)%Q); (IdInt 3, (1 # 4)%Q)]], 4) /\
  Forall2 (fun (fused : ranked Q) (vectors : ranked Q * ranked Q) =>
             incl (map fst fused) (map fst (fst vectors) ++ map fst (snd vectors)))
          [[(IdInt 1, (6 # 8)%Q); (IdInt 0, (1 # 2)%Q); (IdInt 3, (1 # 4)%Q)]]
          (combine dense_lists sparse_lists).
Proof.
  assert (H : hybrid (the_scoring (fun _ => false)) (WNumber half) 4
                dense_lists sparse_lists 0
              = Ok ([[(IdInt 1, (6 # 8)%Q); (IdInt 0, (1 # 2)%Q);
                      (IdInt 3, (1 # 4)%Q)]], 4))
    by reflexivity.
  split; [exact H|].
  exact (@hybrid_identifiers_from_inputs Q _ _ _ 4%Z _ _ 0 _ 4 H).
Defined.

(** Limit 4 leaves room for the two entries of each side: identifiers 0, 1
    and 3 all come back. *)
Lemma hybrid_keeps_visited_identifiers_witness :
  as_sequence (WNumber (half : Q)) = [half; sub one half] /\
  hybrid (the_scoring (fun _ => false)) (WNumber half) 4 dense_lists sparse_lists 0
  = Ok ([[(IdInt 1, (6 # 8)%Q); (IdInt 0, (1 # 2)%Q); (IdInt 3, (1 # 4)%Q)]], 4) /\
  Forall2 (fun (fused : ranked Q) (vectors : ranked Q * ranked Q) =>
             (Z.of_nat (List.length (fst vectors) + List.length (snd vectors)) <= 4)%Z ->
             forall u,
               (ltb zero (half : Q) = true /\ In u (map fst (fst vectors))) \/
               (ltb zero (sub one half : Q) = true /\ In u (map fst (snd vectors))) ->
               In u (map fst fused))
          [[(IdInt 1, (6 # 8)%Q); (IdInt 0, (1 # 2)%Q); (IdInt 3, (1 # 4)%Q)]]
          (combine dense_lists sparse_lists).
Proof.
  assert (H : hybrid (the_scoring (fun _ => false)) (WNumber half) 4
                dense_lists sparse_lists 0
              = Ok ([[(IdInt 1, (6 # 8)%Q); (IdInt 0, (1 # 2)%Q);
                      (IdInt 3, (1 # 4)%Q)]], 4))
    by reflexivity.
  split; [reflexivity|]. split; [exact H|].
  exact (@hybrid_keeps_visited_identifiers Q _ (the_scoring (fun _ => false))
           (WNumber half) 4%Z dense_lists sparse_lists half (sub one half) [] 0
           _ 4 eq_refl H).
Defined.

(** Two dense lists against one sparse list: one fused list. *)
Lemma hybrid_length_witness :
  hybrid (the_scoring (fun _ => false)) (WNumber half) 4
         (dense_lists ++ dense_lists) sparse_lists 0
  = Ok ([[(IdInt 1, (6 # 8)%Q); (IdInt 0, (1 # 2)%Q); (IdInt 3, (1 # 4)%Q)]], 4) /\
  List.length [[(IdInt 1, (6 # 8)%Q); (IdInt 0, (1 # 2)%Q); (IdInt 3, (1 # 4)%Q)]]
  = Nat.min (List.length (dense_lists ++ dense_lists)) (List.length sparse_lists).
Proof.
  assert (H : hybrid (the_scoring (fun _ => false)) (WNumber half) 4
                (dense_lists ++ dense_lists) sparse_lists 0
              = Ok ([[(IdInt 1, (6 # 8)%Q); (IdInt 0, (1 # 2)%Q);
                      (IdInt 3, (1 # 4)%Q)]], 4))
    by reflexivity.
  split; [exact H|].
  exact (@hybrid_length Q _ _ _ 4%Z _ _ 0 _ 4 H).
Defined.

Lemma hybrid_results_descending_witness :
  (forall a b : Q, ltb a b = true -> ltb b a = false) /\
  hybrid (the_scoring (fun _ => false)) (WNumber half) 4 dense_lists sparse_lists 0
  = Ok ([[(IdInt 1, (6 # 8)%Q); (IdInt 0, (1 # 2)%Q); (IdInt 3, (1 # 4)%Q)]], 4) /\
  Forall (@descending Q _)
         [[(IdInt 1, (6 # 8)%Q); (IdInt 0, (1 # 2)%Q); (IdInt 3, (1 # 4)%Q)]].
Proof.
  assert (H : hybrid (the_scoring (fun _ => false)) (WNumber half) 4
                dense_lists sparse_lists 0
              = Ok ([[(IdInt 1, (6 # 8)%Q); (IdInt 0, (1 # 2)%Q);
                      (IdInt 3, (1 # 4)%Q)]], 4))
    by reflexivity.
  split; [exact Qltb_asym|]. split; [exact H|].
  exact (@hybrid_results_descending Q _ Qltb_asym _ _ 4%Z _ _ 0 _ 4 H).
Defined.

Lemma hybrid_short_weights_witness :
  (List.length (as_sequence (WSeq [(1 # 2)%Q])) < 2)%nat /\
  dense_lists <> [] /\ sparse_lists <> [] /\
  hybrid (the_scoring (fun _ => false)) (WSeq [(1 # 2)%Q]) 4 dense_lists sparse_lists 0
  = Raise IndexError.
Proof.
  assert (H1 : (List.length (as_sequence (WSeq [(1 # 2)%Q])) < 2)%nat)
    by (apply Nat.lt_succ_diag_r).
  assert (H2 : dense_lists <> []) by discriminate.
  assert (H3 : sparse_lists <> []) by discriminate.
  split; [exact H1|]. split; [exact H2|]. split; [exact H3|].
  exact (@hybrid_short_weights Q _ (the_scoring (fun _ => false)) (WSeq [(1 # 2)%Q])
           4%Z dense_lists sparse_lists 0 H1 H2 H3).
Defined.

(** Weights (0, 1) in binary64, on a batch of two queries. *)
Lemma search_zero_one_is_sparse_witness :
  (forall k : nat, isnormalized float_scoring k = true) /\
  ltb (zero : float) one = true /\ ltb (zero : float) zero = false /\
  ann float_index = Some float_ann /\ scoring float_index = Some float_scoring /\
  dense float_index float_ann [lit "cats"; lit "dogs"] 3
  = Ok (float_dense_lists ++ float_dense_lists) /\
  sparse float_index float_scoring [lit "cats"; lit "dogs"] 3
  = Ok (float_sparse_lists ++ float_sparse_lists) /\
  Forall (fun l => descending l /\ NoDup (map fst l) /\
                   (Z.of_nat (List.length l) <= 3)%Z)
         (float_sparse_lists ++ float_sparse_lists) /\
  Forall (@kept_by_one float _) (float_sparse_lists ++ float_sparse_lists) /\
  exists n',
    search float_index [lit "cats"; lit "dogs"] 3 (WSeq [zero; one]) 0
    = Ok (Some (float_sparse_lists ++ float_sparse_lists), n').
Proof.
  assert (Hs : Forall (fun l => descending l /\ NoDup (map fst l) /\
                                (Z.of_nat (List.length l) <= 3)%Z)
                      (float_sparse_lists ++ float_sparse_lists)).
  { repeat constructor; simpl; intuition discriminate. }
  assert (Hk : Forall (@kept_by_one float _) (float_sparse_lists ++ float_sparse_lists)).
  { repeat constructor. }
  split; [reflexivity|]. split; [reflexivity|]. split; [reflexivity|].
  split; [reflexivity|]. split; [reflexivity|]. split; [reflexivity|].
  split; [reflexivity|]. split; [exact Hs|]. split; [exact Hk|].
  exact (@search_zero_one_is_sparse float _ E unit float_scoring
           (fun _ => eq_refl) eq_refl eq_refl
           float_index float_ann [lit "cats"; lit "dogs"] 3%Z
           (float_dense_lists ++ float_dense_lists)
           (float_sparse_lists ++ float_sparse_lists)
           0 eq_refl eq_refl eq_refl eq_refl eq_refl Hs Hk).
Defined.

(** A sparse score of [-0.0] is not handed on as it is: [0.0 + -0.0 * 1] is
    [0.0], and that is the score the fusion returns. *)
Example weight_one_drops_sign_of_zero :
  classify (add zero (mul (-0)%float one)) = FloatClass.PZero /\
  classify (-0)%float = FloatClass.NZero /\
  hybrid float_scoring (WSeq [zero; one]) 3
         [[(IdInt 0, 0.75%float)]] [[(IdInt 1, (-0)%float)]] 0
  = Ok ([[(IdInt 1, 0%float)]], 1).
Proof. repeat split. Qed.

Lemma extract_queries_in_order_witness :
  Forall clauses_have_query [two_clauses; filtered] /\
  exists candidates,
    extract [two_clauses; filtered] 3
    = Ok ([(0, (lit "cats")); (0, (lit "dogs")); (1, (lit "cats"))], candidates).
Proof.
  assert (H : Forall clauses_have_query [two_clauses; filtered]).
  { repeat (constructor; [read_query|]). constructor. }
  split; [exact H|]. exact (@extract_queries_in_order _ _ 3%Z H).
Defined.

(** The clause without arguments of [no_argument], after a clause and a
    query that [extract] reads and before a query it could not read. *)
Lemma extract_empty_clause_raises_witness :
  Forall clauses_have_query [filtered] /\
  p_similar no_argument = Some ([[lit "cats"]] ++ [] :: []) /\
  Forall params_ok [[lit "cats"]] /\
  extract ([filtered] ++ no_argument :: [squared]) 3 = Raise IndexError.
Proof.
  assert (H : Forall clauses_have_query [filtered]).
  { repeat (constructor; [read_query|]). constructor. }
  assert (Hc : Forall params_ok [[lit "cats"]]).
  { repeat (constructor; [read_clause|]). constructor. }
  split; [exact H|]. split; [reflexivity|]. split; [exact Hc|].
  exact (@extract_empty_clause_raises _ [filtered] no_argument [squared]
           [[lit "cats"]] [] 3%Z H eq_refl Hc).
Defined.

(** A second argument that is a superscript two, before a clause without
    arguments. *)
Lemma extract_value_error_witness :
  Forall clauses_have_query [filtered] /\
  p_similar squared_first
  = Some ([] ++ (lit "cats" :: superscript_two :: []) :: [[]]) /\
  Forall params_ok [] /\
  isdigit superscript_two = true /\ int superscript_two = None /\
  extract ([filtered] ++ squared_first :: [no_argument]) 3 = Raise ValueError.
Proof.
  assert (H : Forall clauses_have_query [filtered]).
  { repeat (constructor; [read_query|]). constructor. }
  split; [exact H|]. split; [reflexivity|]. split; [constructor|].
  split; [reflexivity|]. split; [reflexivity|].
  exact (@extract_value_error _ [filtered] squared_first [no_argument]
           [] [[]] (lit "cats") superscript_two [] 3%Z H eq_refl
           (Forall_nil _) eq_refl eq_refl).
Defined.

(** A caller's limit of -5 on a query without limit clause: the effective
    limit and the candidate count are 0. *)
Lemma dbsearch_counts_nonnegative_witness :
  limit [the_parse (lit "cats")] = Ok 0%Z /\
  extract [the_parse (lit "cats")] (Z.max (-5) 0) = Ok ([(0, (lit "cats"))], 0%Z) /\
  (0 <= 0)%Z /\ (0 <= Z.max (-5) 0)%Z /\ (0 <= 0)%Z.
Proof.
  split; [reflexivity|]. split; [reflexivity|].
  exact (@dbsearch_counts_nonnegative _ [the_parse (lit "cats")] (-5)%Z 0%Z
           [(0, (lit "cats"))] 0%Z eq_refl eq_refl).
Defined.

Lemma dbsearch_rows_witness :
  dbsearch database_index the_database [lit "cats"; lit "dogs"] 2 (WNumber half) 0
  = Ok ([(the_parse (lit "cats"), dense_lists, 2%Z); (the_parse (lit "dogs"), dense_lists, 2%Z)], 0) /\
  exists ql equeries candidates found,
    limit (parse database_index the_database [lit "cats"; lit "dogs"]) = Ok ql /\
    extract (parse database_index the_database [lit "cats"; lit "dogs"]) (Z.max 2 ql)
    = Ok (equeries, candidates) /\
    (equeries = [] -> found = [] /\ 0 = 0) /\
    (equeries <> [] ->
     search database_index (map snd equeries) candidates (WNumber half) 0
     = Ok (Some found, 0)) /\
    [(the_parse (lit "cats"), dense_lists, 2%Z); (the_parse (lit "dogs"), dense_lists, 2%Z)]
    = map (fun xq => db_search the_database (snd xq)
                       (candidates_of (fst xq) equeries found) (Z.max 2 ql))
          (enumerate (parse database_index the_database [lit "cats"; lit "dogs"])).
Proof.
  assert (H : dbsearch database_index the_database [lit "cats"; lit "dogs"] 2
                (WNumber half) 0
              = Ok ([(the_parse (lit "cats"), dense_lists, 2%Z);
                     (the_parse (lit "dogs"), dense_lists, 2%Z)], 0))
    by reflexivity.
  split; [exact H|].
  exact (@dbsearch_rows Q _ _ E Row database_index the_database [lit "cats"; lit "dogs"]
           2%Z (WNumber half) 0 _ 0 H).
Defined.

Lemma dbsearch_without_similar_witness :
  Forall (fun q => p_similar q = None \/ p_similar q = Some [])
         (parse plain_index plain_database [lit "cats"; lit "dogs"]) /\
  limit (parse plain_index plain_database [lit "cats"; lit "dogs"]) = Ok 7%Z /\
  dbsearch plain_index plain_database [lit "cats"; lit "dogs"] 2 (WNumber half) 0
  = Ok (map (fun q => db_search plain_database q [] (Z.max 2 7))
            (parse plain_index plain_database [lit "cats"; lit "dogs"]), 0).
Proof.
  assert (H : Forall (fun q => p_similar q = None \/ p_similar q = Some [])
                     (parse plain_index plain_database [lit "cats"; lit "dogs"])).
  { repeat constructor. }
  split; [exact H|]. split; [reflexivity|].
  exact (@dbsearch_without_similar Q _ _ E Row plain_index plain_database
           [lit "cats"; lit "dogs"] 2%Z 7%Z (WNumber half) 0 H eq_refl).
Defined.

Lemma call_indexids_positions_witness :
  indexids bypass_index = true /\
  call bypass_index [lit "cats"] None None 0
  = Ok (Results (Some [[(IdInt 1, (6 # 8)%Q); (IdInt 0, (1 # 2)%Q);
                        (IdInt 3, (1 # 4)%Q)]]), 4) /\
  exists r,
    Results (Row:=Row)
            (Some [[(IdInt 1, (6 # 8)%Q); (IdInt 0, (1 # 2)%Q); (IdInt 3, (1 # 4)%Q)]])
    = Results r /\
    forall l, r = Some l -> Forall (Forall (fun entry => is_position (fst entry))) l.
Proof.
  assert (H : call bypass_index [lit "cats"] None None 0
              = Ok (Results (Some [[(IdInt 1, (6 # 8)%Q); (IdInt 0, (1 # 2)%Q);
                                    (IdInt 3, (1 # 4)%Q)]]), 4))
    by reflexivity.
  split; [reflexivity|]. split; [exact H|].
  exact (@call_indexids_positions Q _ _ E Row bypass_index [lit "cats"] None None 0
           _ 4 eq_refl H).
Defined.


(** Reciprocal rank fusion with weights [0.5, 0.5]: identifier 1, second in
    the dense list and first in the sparse list, gets
    [0.0 + (1/2) * 0.5 + (1/1) * 0.5]. *)
Lemma hybrid_fused_scores_witness :
  as_sequence (WNumber (half : Q)) = [half; sub one half] /\
  (forall k : nat, isnormalized (the_scoring (fun _ => false)) k = false) /\
  hybrid (the_scoring (fun _ => false)) (WNumber half) 4 dense_lists sparse_lists 0
  = Ok ([[(IdInt 1, (6 # 8)%Q); (IdInt 0, (1 # 2)%Q); (IdInt 3, (1 # 4)%Q)]], 4) /\
  Forall2 (fun (fused : ranked Q) (vectors : ranked Q * ranked Q) =>
             forall uid score,
               In (uid, score) fused ->
               score = fused_score false half (sub one half)
                                   (fst vectors) (snd vectors) uid)
          [[(IdInt 1, (6 # 8)%Q); (IdInt 0, (1 # 2)%Q); (IdInt 3, (1 # 4)%Q)]]
          (combine dense_lists sparse_lists).
Proof.
  assert (H : hybrid (the_scoring (fun _ => false)) (WNumber half) 4
                dense_lists sparse_lists 0
              = Ok ([[(IdInt 1, (6 # 8)%Q); (IdInt 0, (1 # 2)%Q);
                      (IdInt 3, (1 # 4)%Q)]], 4))
    by reflexivity.
  split; [reflexivity|]. split; [reflexivity|]. split; [exact H|].
  exact (@hybrid_fused_scores Q _ (the_scoring (fun _ => false)) false
           (fun _ => eq_refl) (WNumber half) 4%Z dense_lists sparse_lists
           half (sub one half) [] 0 _ 4 eq_refl H).
Defined.

Example fused_score_examples :
  fused_score false (1 # 2)%Q (1 # 2)%Q
              [(IdInt 0, (9 # 10)%Q); (IdInt 1, (1 # 10)%Q)]
              [(IdInt 1, (8 # 10)%Q); (IdInt 3, (2 # 10)%Q)] (IdInt 1)
  = (6 # 8)%Q /\
  fused_score true (1 # 2)%Q (1 # 2)%Q
              [(IdInt 0, (9 # 10)%Q); (IdInt 1, (1 # 10)%Q)]
              [(IdInt 1, (8 # 10)%Q); (IdInt 3, (2 # 10)%Q)] (IdInt 1)
  = (180 # 400)%Q.
Proof. split; reflexivity. Qed.
